(** * The S3 storage driver of bamgoo/storage-s3, embedded in Rocq

    The development follows [src/s3.go]: the configuration normaliser
    ([Connect]), the connection life cycle ([Open], [Health], [Close]), the
    object key resolver ([objectPath]) and the five file operations.

    Go values are embedded as follows.
    - [string] is a Go string read as a sequence of bytes.
    - a Go [map[string]any] is a [gmap string any]; the order in which a
      [range] loop visits it is supplied by the environment.
    - a method with a pointer receiver is a computation in the monad [M],
      whose state holds the connection object and the world around it (the
      local file system, the open files, the calls issued to the object
      store).
    - a Go [(value, error)] result is a [result]; a failed call keeps the
      state it reached, as in Go. *)

From Stdlib Require Import ZArith String Ascii DecimalString List Lia.
From Stdlib.Strings Require Import Byte.
From stdpp Require Import gmap strings list sorting.

Open Scope string_scope.

(** ** Dynamic values

    The values a [map[string]any] of the host carries, as far as the driver
    looks at them: it asserts [string] and [bool], and prints with [%v]. A
    value of any other type is [any_other], with what [%v] prints for it. *)

Inductive any : Type :=
| any_nil
| any_string (s : string)
| any_bool (b : bool)
| any_int (n : Z)
| any_other (printed : string).

(** [v, ok := x.(string)] on the result of a map lookup: a missing key gives
    the nil interface, on which the assertion fails. *)
Definition assert_string (x : option any) : option string :=
  match x with
  | Some (any_string s) => Some s
  | _ => None
  end.

(** [v, ok := x.(bool)]. *)
Definition assert_bool (x : option any) : option bool :=
  match x with
  | Some (any_bool b) => Some b
  | _ => None
  end.

(** [s != ""]. *)
Definition nonempty (s : string) : bool :=
  match s with
  | EmptyString => false
  | String _ _ => true
  end.

(** ** The parts of the Go standard library the driver calls *)

Module fmt.

(** [fmt.Sprintf("%d", n)]. *)
Definition Sprintf_d (n : Z) : string := NilZero.string_of_int (Z.to_int n).

(** [fmt.Sprintf("%v", v)]. *)
Definition Sprintf_v (v : any) : string :=
  match v with
  | any_nil => "<nil>"
  | any_string s => s
  | any_bool true => "true"
  | any_bool false => "false"
  | any_int n => Sprintf_d n
  | any_other printed => printed
  end.

End fmt.

Module strings.

(** [strings.HasPrefix(s, prefix)]. *)
Definition HasPrefix (s prefix : string) : bool := String.prefix prefix s.

(** [strings.Join(elems, sep)]. *)
Definition Join (elems : list string) (sep : string) : string :=
  String.concat sep elems.

End strings.

Module sort.

(** [sort.Strings]: increasing byte-wise lexicographic order. *)
Definition Strings (l : list string) : list string := merge_sort String.le l.

End sort.

Module path.

Definition is_slash (c : ascii) : bool := Ascii.eqb c "/".
Definition is_dot (c : ascii) : bool := Ascii.eqb c ".".

(** [r == n || path[r] == '/'] for the rest of the path from [r]. *)
Definition at_sep (rest : string) : bool :=
  match rest with
  | EmptyString => true
  | String c _ => is_slash c
  end.

(** The leading path element of [p] (up to the next slash) and what
    follows it. *)
Fixpoint split_elem (p : string) : list ascii * string :=
  match p with
  | EmptyString => ([], EmptyString)
  | String c r =>
      if is_slash c then ([], p)
      else let '(e, rest) := split_elem r in (c :: e, rest)
  end.

(** The "[..]" case of [Clean] when it can backtrack: drop the last byte
    written, and keep dropping while more than [dotdot] bytes remain and the
    byte just dropped is not a slash. The buffer is kept last byte first. *)
Fixpoint backtrack (out : list ascii) (dotdot : nat) : list ascii :=
  match out with
  | [] => []
  | c :: out' =>
      if (dotdot <? length out')%nat && negb (is_slash c)
      then backtrack out' dotdot
      else out'
  end.

(** The loop of [path.Clean]; [p] is the unread rest of the path, [out] the
    bytes written so far (last byte first). Each round reads at least one
    byte, so [fuel] is the length of the path. *)
Fixpoint clean_loop (fuel : nat) (rooted : bool) (p : string)
    (out : list ascii) (dotdot : nat) : list ascii :=
  match fuel with
  | O => out
  | S fuel' =>
      match p with
      | EmptyString => out
      | String c r =>
          if is_slash c then
            clean_loop fuel' rooted r out dotdot
          else if is_dot c && at_sep r then
            clean_loop fuel' rooted r out dotdot
          else if is_dot c &&
                  match r with
                  | String c' r' => is_dot c' && at_sep r'
                  | EmptyString => false
                  end then
            let r2 := match r with String _ r' => r' | EmptyString => r end in
            if (dotdot <? length out)%nat then
              clean_loop fuel' rooted r2 (backtrack out dotdot) dotdot
            else if negb rooted then
              let out1 :=
                if (0 <? length out)%nat then "/"%char :: out else out in
              let out2 := "."%char :: "."%char :: out1 in
              clean_loop fuel' rooted r2 out2 (length out2)
            else
              clean_loop fuel' rooted r2 out dotdot
          else
            let out1 :=
              if (rooted && negb (length out =? 1)%nat)
                 || (negb rooted && negb (length out =? 0)%nat)
              then "/"%char :: out else out in
            let '(e, rest) := split_elem p in
            clean_loop fuel' rooted rest (rev e ++ out1) dotdot
      end
  end.

(** [path.Clean]. *)
Definition Clean (p : string) : string :=
  match p with
  | EmptyString => "."
  | String c r =>
      let n := String.length p in
      let out :=
        if is_slash c then clean_loop n true r ["/"%char] 1
        else clean_loop n false p [] 0 in
      match out with
      | [] => "."
      | _ => string_of_list_ascii (rev out)
      end
  end.

(** The buffer [path.Join] builds before cleaning it: the non-empty
    elements so far, separated by slashes. *)
Fixpoint join_buf (buf : string) (elem : list string) : string :=
  match elem with
  | [] => buf
  | e :: rest =>
      if nonempty buf || nonempty e then
        join_buf ((if nonempty buf then buf ++ "/" else buf) ++ e) rest
      else join_buf buf rest
  end.

(** [path.Join]. *)
Definition Join (elem : list string) : string :=
  let size := fold_left (fun n e => (n + String.length e)%nat) elem 0%nat in
  if (size =? 0)%nat then "" else Clean (join_buf "" elem).

(** [path.Ext]: the suffix from the last dot of the last path element;
    [acc] is the candidate found so far. *)
Fixpoint ext_from (p : string) (acc : string) : string :=
  match p with
  | EmptyString => acc
  | String c r =>
      if is_slash c then ext_from r ""
      else if is_dot c then ext_from r p
      else ext_from r acc
  end.

Definition Ext (p : string) : string := ext_from p "".

(** The part of [p] up to and including its last slash ([path.Split]). *)
Fixpoint dir_part (p : string) : string :=
  match p with
  | EmptyString => ""
  | String c r =>
      match dir_part r with
      | EmptyString => if is_slash c then String c "" else ""
      | d => String c d
      end
  end.

(** [path.Dir]. *)
Definition Dir (p : string) : string := Clean (dir_part p).

End path.

Module url.

Definition upperhex : string := "0123456789ABCDEF".

Definition hex_digit (n : N) : ascii :=
  match String.get (N.to_nat n) upperhex with
  | Some c => c
  | None => "0"%char
  end.

Definition between (lo hi c : ascii) : bool :=
  ((N_of_ascii lo <=? N_of_ascii c) && (N_of_ascii c <=? N_of_ascii hi))%N.

(** [shouldEscape(c, encodeQueryComponent)]. *)
Definition shouldEscape (c : ascii) : bool :=
  if between "a" "z" c || between "A" "Z" c || between "0" "9" c then false
  else if Ascii.eqb c "-" || Ascii.eqb c "_" || Ascii.eqb c "."
          || Ascii.eqb c "~" then false
  else true.

(** [url.QueryEscape]. *)
Fixpoint QueryEscape (s : string) : string :=
  match s with
  | EmptyString => EmptyString
  | String c r =>
      if shouldEscape c then
        if Ascii.eqb c " " then String "+" (QueryEscape r)
        else
          String "%"
            (String (hex_digit (N.shiftr (N_of_ascii c) 4))
               (String (hex_digit (N.land (N_of_ascii c) 15))
                  (QueryEscape r)))
      else String c (QueryEscape r)
  end.

End url.

(** ** The host's storage package

    [github.com/bamgoo/storage] is not part of this repository; these are
    the types of it the driver reads and builds, with the fields the driver
    uses. *)

Module storage.

Module File.
(** What the accessors [Prefix()], [Key()] and [Type()] of a [*storage.File]
    return, and its size. *)
Record t : Type := { Prefix : string; Key : string; Type_ : string; Size : Z }.
End File.

(** A [*storage.Instance]: its [Setting] map and its file factory. *)
Record Instance : Type := {
  Setting : gmap string any;
  NewFile : string -> string -> string -> Z -> File.t
}.

Module UploadOption.
(** [Expires] is a [time.Time], counted from the zero time. *)
Record t : Type := {
  Key : string;
  Prefix : string;
  Mimetype : string;
  Expires : Z;
  Metadata : gmap string any;
  Tags : gmap string any
}.
End UploadOption.

Module FetchOption.
Record t : Type := { Start : Z; End_ : Z }.
End FetchOption.

Module DownloadOption.
Record t : Type := { Target : string }.
End DownloadOption.

Module RemoveOption.
Record t : Type := { }.
End RemoveOption.

Module BrowseOption.
(** [Expires] is a [time.Duration], in nanoseconds. *)
Record t : Type := { Expires : Z }.
End BrowseOption.

Record Health : Type := { Workload : Z }.

End storage.

Module time.

(** [t.IsZero()]. *)
Definition IsZero (t : Z) : bool := (t =? 0)%Z.

(** [time.Hour], in nanoseconds. *)
Definition Hour : Z := 3600000000000%Z.

End time.

(** ** Errors *)

Inductive Errno : Type :=
| ENOENT | EEXIST | ENOTDIR | EISDIR | EACCES | EIO | EINVAL | ErrClosed.

Inductive error : Type :=
| errors_New (msg : string)                        (* [errors.New(msg)] *)
| PathError (op name : string) (errno : Errno)     (* a failed call of [os] *)
| sdk_error (msg : string).                        (* an error of the AWS SDK *)

Inductive result (A : Type) : Type :=
| Ok (a : A)
| Err (e : error).
Arguments Ok {A} a.
Arguments Err {A} e.

(** ** Types of the driver (src/s3.go, lines 23-46) *)

Inductive s3Driver : Type := Build_s3Driver.

Record s3Setting : Type := {
  Region : string;
  Bucket : string;
  AccessKey : string;
  SecretKey : string;
  SessionToken : string;
  Endpoint : string;
  UsePathStyle : bool
}.

(** Assignments to one field of a [s3Setting]. *)
Definition set_Region (v : string) (s : s3Setting) : s3Setting :=
  {| Region := v; Bucket := Bucket s; AccessKey := AccessKey s;
     SecretKey := SecretKey s; SessionToken := SessionToken s;
     Endpoint := Endpoint s; UsePathStyle := UsePathStyle s |}.
Definition set_Bucket (v : string) (s : s3Setting) : s3Setting :=
  {| Region := Region s; Bucket := v; AccessKey := AccessKey s;
     SecretKey := SecretKey s; SessionToken := SessionToken s;
     Endpoint := Endpoint s; UsePathStyle := UsePathStyle s |}.
Definition set_AccessKey (v : string) (s : s3Setting) : s3Setting :=
  {| Region := Region s; Bucket := Bucket s; AccessKey := v;
     SecretKey := SecretKey s; SessionToken := SessionToken s;
     Endpoint := Endpoint s; UsePathStyle := UsePathStyle s |}.
Definition set_SecretKey (v : string) (s : s3Setting) : s3Setting :=
  {| Region := Region s; Bucket := Bucket s; AccessKey := AccessKey s;
     SecretKey := v; SessionToken := SessionToken s;
     Endpoint := Endpoint s; UsePathStyle := UsePathStyle s |}.
Definition set_SessionToken (v : string) (s : s3Setting) : s3Setting :=
  {| Region := Region s; Bucket := Bucket s; AccessKey := AccessKey s;
     SecretKey := SecretKey s; SessionToken := v;
     Endpoint := Endpoint s; UsePathStyle := UsePathStyle s |}.
Definition set_Endpoint (v : string) (s : s3Setting) : s3Setting :=
  {| Region := Region s; Bucket := Bucket s; AccessKey := AccessKey s;
     SecretKey := SecretKey s; SessionToken := SessionToken s;
     Endpoint := v; UsePathStyle := UsePathStyle s |}.
Definition set_UsePathStyle (v : bool) (s : s3Setting) : s3Setting :=
  {| Region := Region s; Bucket := Bucket s; AccessKey := AccessKey s;
     SecretKey := SecretKey s; SessionToken := SessionToken s;
     Endpoint := Endpoint s; UsePathStyle := v |}.

(** [if v, ok := x.(string); ok && v != "" { setting.F = v }]. *)
Definition if_string (x : option any) (assign : string -> s3Setting -> s3Setting)
    (setting : s3Setting) : s3Setting :=
  match assert_string x with
  | Some v => if nonempty v then assign v setting else setting
  | None => setting
  end.

(** [if v, ok := x.(bool); ok { setting.F = v }]. *)
Definition if_bool (x : option any) (assign : bool -> s3Setting -> s3Setting)
    (setting : s3Setting) : s3Setting :=
  match assert_bool x with
  | Some v => assign v setting
  | None => setting
  end.

(** ** The AWS SDK, as far as the driver configures and calls it *)

Module credentials.
(** [credentials.NewStaticCredentialsProvider(key, secret, session)]. *)
Record StaticCredentialsProvider : Type := NewStaticCredentialsProvider {
  Key : string; Secret : string; Session : string
}.
End credentials.

Module config.
Record LoadOptions : Type := {
  Region : string;
  Credentials : option credentials.StaticCredentialsProvider
}.
Definition no_options : LoadOptions := {| Region := ""; Credentials := None |}.
Definition WithRegion (v : string) (o : LoadOptions) : LoadOptions :=
  {| Region := v; Credentials := Credentials o |}.
Definition WithCredentialsProvider
    (p : credentials.StaticCredentialsProvider) (o : LoadOptions) : LoadOptions :=
  {| Region := Region o; Credentials := Some p |}.
End config.

Module s3.

Record Options : Type := { UsePathStyle : bool; BaseEndpoint : option string }.
Definition no_options : Options :=
  {| UsePathStyle := false; BaseEndpoint := None |}.

(** A [*s3.Client]: the loaded configuration and the client options. *)
Record Client : Type := { Config : config.LoadOptions; Opts : Options }.

(** [s3.NewFromConfig(cfg, optFns...)]. *)
Definition NewFromConfig (cfg : config.LoadOptions)
    (optFns : list (Options -> Options)) : Client :=
  {| Config := cfg; Opts := fold_left (fun o f => f o) optFns no_options |}.

Module HeadBucketInput.
Record t : Type := { Bucket : string }.
End HeadBucketInput.

Module CreateBucketInput.
Record t : Type := { Bucket : string }.
End CreateBucketInput.

Module PutObjectInput.
(** [Body] is the open local file the SDK reads the object from. *)
Record t : Type := {
  Bucket : string;
  Key : string;
  Body : nat;
  ContentType : option string;
  Expires : option Z;
  Metadata : option (gmap string string);
  Tagging : option string
}.
End PutObjectInput.

Module GetObjectInput.
Record t : Type := { Bucket : string; Key : string; Range : option string }.
End GetObjectInput.

Module DeleteObjectInput.
Record t : Type := { Bucket : string; Key : string }.
End DeleteObjectInput.

(** The body of a [GetObject] response: the bytes a reader gets, then the
    end of the stream or a read error. *)
Record Body : Type := { body_data : list byte; body_err : option error }.

End s3.

(** ** The connection object (src/s3.go, lines 26-30) *)

Record s3Connection : Type := {
  instance : storage.Instance;
  setting : s3Setting;
  client : option s3.Client
}.

Definition set_client (cl : option s3.Client) (c : s3Connection) : s3Connection :=
  {| instance := instance c; setting := setting c; client := cl |}.

Record tempStream : Type := { file : nat; path_ : string }.

(** [Driver] (src/index.go, lines 8-10). *)
Definition Driver : s3Driver := Build_s3Driver.

(** ** Configuration normaliser: [Connect] (src/s3.go, lines 48-90) *)

Definition Connect (d : s3Driver) (instance : storage.Instance)
    : result s3Connection :=
  let get k := storage.Setting instance !! k in
  let setting :=
    {| Region := "us-east-1"; Bucket := "default"; AccessKey := "";
       SecretKey := ""; SessionToken := ""; Endpoint := "";
       UsePathStyle := false |} in
  let setting := if_string (get "region") set_Region setting in
  let setting := if_string (get "bucket") set_Bucket setting in
  let setting := if_string (get "access") set_AccessKey setting in
  let setting := if_string (get "accesskey") set_AccessKey setting in
  let setting := if_string (get "access_key") set_AccessKey setting in
  let setting := if_string (get "secret") set_SecretKey setting in
  let setting := if_string (get "secretkey") set_SecretKey setting in
  let setting := if_string (get "secret_key") set_SecretKey setting in
  let setting := if_string (get "session_token") set_SessionToken setting in
  let setting := if_string (get "endpoint") set_Endpoint setting in
  let setting := if_bool (get "path_style") set_UsePathStyle setting in
  let setting := if_bool (get "force_path_style") set_UsePathStyle setting in
  let setting :=
    if nonempty (Bucket setting) then setting
    else set_Bucket "default" setting in
  Ok {| instance := instance; setting := setting; client := None |}.

(** ** Object key resolver: [objectPath] (src/s3.go, lines 306-312) *)

Definition objectPath (file : storage.File.t) : string :=
  let name := storage.File.Key file in
  let name :=
    if nonempty (storage.File.Type_ file)
    then storage.File.Key file ++ "." ++ storage.File.Type_ file
    else name in
  path.Join [storage.File.Prefix file; name].

(** ** Request construction *)

(** [opt.Tags[k]]: a missing key reads as nil. *)
Definition index (m : gmap string any) (k : string) : any :=
  default any_nil (m !! k).

(** The tagging string of [Upload] (src/s3.go, lines 190-202). [order] is
    the order in which the [range] loop visits the keys of the map. *)
Definition tagging (order : list string -> list string)
    (tags : gmap string any) : option string :=
  if (0 <? size tags)%nat then
    let keys := order (map_to_list tags).*1 in
    let keys := sort.Strings keys in
    let tags' :=
      map (fun k => url.QueryEscape k ++ "="
                      ++ url.QueryEscape (fmt.Sprintf_v (index tags k))) keys in
    Some (strings.Join tags' "&")
  else None.

(** The [PutObjectInput] of [Upload] (src/s3.go, lines 172-202). *)
Definition putObjectInput (order : list string -> list string)
    (c : s3Connection) (key : string) (f : nat)
    (opt : storage.UploadOption.t) : s3.PutObjectInput.t :=
  {| s3.PutObjectInput.Bucket := Bucket (setting c);
     s3.PutObjectInput.Key := key;
     s3.PutObjectInput.Body := f;
     s3.PutObjectInput.ContentType :=
       if nonempty (storage.UploadOption.Mimetype opt)
       then Some (storage.UploadOption.Mimetype opt) else None;
     s3.PutObjectInput.Expires :=
       if negb (time.IsZero (storage.UploadOption.Expires opt))
       then Some (storage.UploadOption.Expires opt) else None;
     s3.PutObjectInput.Metadata :=
       if (0 <? size (storage.UploadOption.Metadata opt))%nat
       then Some (fmt.Sprintf_v <$> storage.UploadOption.Metadata opt)
       else None;
     s3.PutObjectInput.Tagging :=
       tagging order (storage.UploadOption.Tags opt) |}.

(** The [GetObjectInput] of [Fetch] (src/s3.go, lines 215-222). *)
Definition getObjectInput (c : s3Connection) (file : storage.File.t)
    (opt : storage.FetchOption.t) : s3.GetObjectInput.t :=
  let start := storage.FetchOption.Start opt in
  let end_ := storage.FetchOption.End_ opt in
  {| s3.GetObjectInput.Bucket := Bucket (setting c);
     s3.GetObjectInput.Key := objectPath file;
     s3.GetObjectInput.Range :=
       if (0 <? start)%Z || (0 <? end_)%Z then
         if (0 <? end_)%Z
         then Some ("bytes=" ++ fmt.Sprintf_d start ++ "-" ++ fmt.Sprintf_d end_)
         else Some ("bytes=" ++ fmt.Sprintf_d start ++ "-")
       else None |}.

(** ** The world around the connection

    The local file system maps a path, as the driver spells it, to a regular
    file or a directory; [os.Stat] reports what this map holds. Open files
    are numbered, a new one by a number not in use; a closed file leaves
    [files]. Every request sent to the
    object store is appended to [calls]. *)

Inductive node : Type :=
| file_node (data : list byte)
| dir_node.

Record FileInfo : Type := { IsDir : bool; Size : Z }.

Record open_file : Type := { Name : string; offset : nat }.

Inductive Call : Type :=
| CallHeadBucket (cl : s3.Client) (input : s3.HeadBucketInput.t)
| CallCreateBucket (cl : s3.Client) (input : s3.CreateBucketInput.t)
| CallPutObject (cl : s3.Client) (input : s3.PutObjectInput.t) (body : list byte)
| CallGetObject (cl : s3.Client) (input : s3.GetObjectInput.t)
| CallDeleteObject (cl : s3.Client) (input : s3.DeleteObjectInput.t)
| CallDownload (cl : s3.Client) (input : s3.GetObjectInput.t).

Record World : Type := {
  fs : gmap string node;
  files : gmap nat open_file;
  bodies : nat;
  calls : list Call
}.

Definition set_fs (v : gmap string node) (w : World) : World :=
  {| fs := v; files := files w;
     bodies := bodies w; calls := calls w |}.
Definition set_files (v : gmap nat open_file) (w : World) : World :=
  {| fs := fs w; files := v;
     bodies := bodies w; calls := calls w |}.
Definition set_bodies (v : nat) (w : World) : World :=
  {| fs := fs w; files := files w;
     bodies := v; calls := calls w |}.
Definition log (call : Call) (w : World) : World :=
  {| fs := fs w; files := files w;
     bodies := bodies w; calls := calls w ++ [call] |}.

(** A new open file on [name], at offset 0. *)
Definition open_new (name : string) (w : World) : nat * World :=
  let f := fresh (dom (files w)) in
  (f,
   {| fs := fs w;
      files := <[f := {| Name := name; offset := 0 |}]> (files w);
      bodies := bodies w; calls := calls w |}).

(** [data] written over [old] from byte [off] on. *)
Definition write_at (off : nat) (data old : list byte) : list byte :=
  take off old ++ replicate (off - length old) x00 ++ data
    ++ drop (off + length data) old.

(** The calls of [os] whose failure the environment decides. *)
Inductive os_call : Type :=
| call_Open (name : string)
| call_CreateTemp (pattern : string)
| call_Write (f : nat)
| call_Seek (f : nat)
| call_Mkdir (name : string)
| call_Create (name : string).

(** The environment: what the object store answers, which local calls fail
    for reasons outside the file system map, the name [os.CreateTemp]
    picks, and the order in which [range] visits the keys of a map. Every
    answer may depend on the world at the time of the call. *)
Record Env : Type := {
  range_order : list string -> list string;
  range_order_perm : forall l, range_order l ≡ₚ l;
  LoadDefaultConfig_err : World -> config.LoadOptions -> option error;
  HeadBucket_err : World -> s3.Client -> s3.HeadBucketInput.t -> option error;
  CreateBucket_err : World -> s3.Client -> s3.CreateBucketInput.t -> option error;
  PutObject_err :
    World -> s3.Client -> s3.PutObjectInput.t -> list byte -> option error;
  GetObject_out : World -> s3.Client -> s3.GetObjectInput.t -> result s3.Body;
  DeleteObject_err : World -> s3.Client -> s3.DeleteObjectInput.t -> option error;
  Download_out :
    World -> s3.Client -> s3.GetObjectInput.t -> list byte * option error;
  PresignGetObject_out :
    World -> s3.Client -> s3.GetObjectInput.t -> Z -> result string;
  temp_name : World -> string -> string;
  os_fault : World -> os_call -> option Errno
}.

(** ** The monad of the methods *)

Record State : Type := { conn : s3Connection; world : World }.

Definition M (A : Type) : Type := State -> result A * State.

#[global] Instance M_ret : MRet M := fun A a s => (Ok a, s).

#[global] Instance M_bind : MBind M := fun A B f m s =>
  match m s with
  | (Ok a, s') => f a s'
  | (Err e, s') => (Err e, s')
  end.

(** [return ..., err]. *)
Definition throw {A} (e : error) : M A := fun s => (Err e, s).

(** [v, err := call()], the error inspected by the caller. *)
Definition attempt {A} (m : M A) : M (result A) :=
  fun s => let '(r, s') := m s in (Ok r, s').

(** [_ = call()]. *)
Definition discard {A} (m : M A) : M unit :=
  fun s => let '(_, s') := m s in (Ok tt, s').

(** [defer d] ahead of the rest [m] of a function body. *)
Definition defer {A B} (d : M B) (m : M A) : M A :=
  fun s => let '(r, s') := m s in let '(_, s'') := d s' in (r, s'').

(** The receiver [c]. *)
Definition this : M s3Connection := fun s => (Ok (conn s), s).

(** [c.client = cl]. *)
Definition assign_client (cl : option s3.Client) : M unit :=
  fun s => (Ok tt, {| conn := set_client cl (conn s); world := world s |}).

Definition get_world : M World := fun s => (Ok (world s), s).

Definition put_world (w : World) : M unit :=
  fun s => (Ok tt, {| conn := conn s; world := w |}).

Definition of_errno {A} (op name : string) (r : Errno + A) : M A :=
  match r with
  | inl e => throw (PathError op name e)
  | inr a => mret a
  end.

(** ** Local files: the calls of [os] and [io] the driver makes

    A call fails when the file system map says so (a missing path, a name
    that is taken, a file that is not open) or when the environment injects a
    fault. No fault is injected into [os.Stat], which reports the map, nor
    into [Close] and [os.Remove], whose results the driver discards: closing
    an open file and removing an existing path take effect. *)

Module os.
Section with_env.
Variable env : Env.

(** [os.Stat(name)]. *)
Definition Stat (name : string) : M FileInfo :=
  w ← get_world;
  match fs w !! name with
  | Some (file_node data) =>
      mret {| IsDir := false; Size := Z.of_nat (length data) |}
  | Some dir_node => mret {| IsDir := true; Size := 0 |}
  | None => throw (PathError "stat" name ENOENT)
  end.

(** [os.Open(name)]. *)
Definition Open (name : string) : M nat :=
  w ← get_world;
  match os_fault env w (call_Open name) with
  | Some e => throw (PathError "open" name e)
  | None =>
      match fs w !! name with
      | Some _ => let '(f, w') := open_new name w in put_world w';; mret f
      | None => throw (PathError "open" name ENOENT)
      end
  end.

(** [os.CreateTemp("", pattern)]: the file is created only under a name
    that is not taken. *)
Definition CreateTemp (pattern : string) : M nat :=
  w ← get_world;
  match os_fault env w (call_CreateTemp pattern) with
  | Some e => throw (PathError "open" pattern e)
  | None =>
      let name := temp_name env w pattern in
      match fs w !! name with
      | Some _ => throw (PathError "open" name EEXIST)
      | None =>
          let '(f, w') := open_new name (set_fs (<[name := file_node []]> (fs w)) w) in
          put_world w';; mret f
      end
  end.

(** [f.Name()]; the empty string stands for a file that is not open. *)
Definition File_Name (w : World) (f : nat) : string :=
  match files w !! f with
  | Some o => Name o
  | None => ""
  end.

(** [f.Write(data)]. *)
Definition File_Write (f : nat) (data : list byte) : M nat :=
  w ← get_world;
  match files w !! f with
  | None => throw (PathError "write" "" ErrClosed)
  | Some o =>
      match os_fault env w (call_Write f) with
      | Some e => throw (PathError "write" (Name o) e)
      | None =>
          match fs w !! Name o with
          | Some (file_node old) =>
              put_world
                (set_files
                   (<[f := {| Name := Name o;
                              offset := offset o + length data |}]> (files w))
                   (set_fs
                      (<[Name o := file_node (write_at (offset o) data old)]>
                         (fs w)) w));;
              mret (length data)
          | _ => throw (PathError "write" (Name o) EIO)
          end
      end
  end.

(** [f.Seek(offset, whence)]. *)
Definition File_Seek (f : nat) (off : Z) (whence : Z) : M Z :=
  w ← get_world;
  match files w !! f with
  | None => throw (PathError "seek" "" ErrClosed)
  | Some o =>
      match os_fault env w (call_Seek f) with
      | Some e => throw (PathError "seek" (Name o) e)
      | None =>
          let size :=
            match fs w !! Name o with
            | Some (file_node data) => Z.of_nat (length data)
            | _ => 0%Z
            end in
          let base :=
            if (whence =? 0)%Z then 0%Z
            else if (whence =? 1)%Z then Z.of_nat (offset o)
            else size in
          let pos := (base + off)%Z in
          if (pos <? 0)%Z || negb ((0 <=? whence)%Z && (whence <=? 2)%Z) then
            throw (PathError "seek" (Name o) EINVAL)
          else
            put_world
              (set_files
                 (<[f := {| Name := Name o; offset := Z.to_nat pos |}]> (files w))
                 w);;
            mret pos
      end
  end.

(** [f.Close()]. *)
Definition File_Close (f : nat) : M unit :=
  w ← get_world;
  match files w !! f with
  | None => throw (PathError "close" "" ErrClosed)
  | Some _ => put_world (set_files (delete f (files w)) w)
  end.

(** [os.Remove(name)]. *)
Definition Remove (name : string) : M unit :=
  w ← get_world;
  match fs w !! name with
  | None => throw (PathError "remove" name ENOENT)
  | Some _ => put_world (set_fs (delete name (fs w)) w)
  end.

(** The directories [os.MkdirAll] makes: [name] and the ancestors of it that
    are missing. [name] is a cleaned path, so [path.Dir] gives its parent;
    [fuel] bounds the depth by the length of the path. *)
Fixpoint mkdir_all (fuel : nat) (w : World) (name : string)
    (m : gmap string node) : Errno + gmap string node :=
  match m !! name with
  | Some dir_node => inr m
  | Some (file_node _) => inl ENOTDIR
  | None =>
      match fuel with
      | O => inl EINVAL
      | S fuel' =>
          let parent := path.Dir name in
          let made :=
            if String.eqb parent name then inr m
            else mkdir_all fuel' w parent m in
          match made with
          | inl e => inl e
          | inr m' =>
              match os_fault env w (call_Mkdir name) with
              | Some e => inl e
              | None => inr (<[name := dir_node]> m')
              end
          end
      end
  end.

(** [os.MkdirAll(name, perm)]. *)
Definition MkdirAll (name : string) : M unit :=
  w ← get_world;
  m ← of_errno "mkdir" name (mkdir_all (S (String.length name)) w name (fs w));
  put_world (set_fs m w).

(** [os.Create(name)]: the file is created or truncated, and opened. *)
Definition Create (name : string) : M nat :=
  w ← get_world;
  match os_fault env w (call_Create name) with
  | Some e => throw (PathError "open" name e)
  | None =>
      match fs w !! name, fs w !! path.Dir name with
      | Some dir_node, _ => throw (PathError "open" name EISDIR)
      | _, Some dir_node =>
          let '(f, w') := open_new name (set_fs (<[name := file_node []]> (fs w)) w) in
          put_world w';; mret f
      | _, Some (file_node _) => throw (PathError "open" name ENOTDIR)
      | _, None => throw (PathError "open" name ENOENT)
      end
  end.

End with_env.
End os.

Module io.
Section with_env.
Variable env : Env.

(** [io.Copy(dst, src)] from a response body into an open file: the bytes
    the body delivers are written, then the read error of the body, if any,
    is returned. *)
Definition Copy (dst : nat) (src : s3.Body) : M nat :=
  n ← os.File_Write env dst (s3.body_data src);
  match s3.body_err src with
  | Some e => throw e
  | None => mret n
  end.

End with_env.
End io.

(** ** The calls of the AWS SDK

    A call of a client method is one request to the object store: it is
    logged, and the environment answers it. Presigning computes a URL
    locally and sends nothing. *)

Module s3api.
Section with_env.
Variable env : Env.

(** One logged request, answered from the world before the request. *)
Definition request {A} (call : Call) (answer : World -> result A) : M A :=
  fun s =>
    (answer (world s), {| conn := conn s; world := log call (world s) |}).

Definition of_err (e : option error) : result unit :=
  match e with
  | Some e => Err e
  | None => Ok tt
  end.

(** [config.LoadDefaultConfig(ctx, optFns...)]. *)
Definition LoadDefaultConfig
    (optFns : list (config.LoadOptions -> config.LoadOptions))
    : M config.LoadOptions :=
  w ← get_world;
  let cfg := fold_left (fun o f => f o) optFns config.no_options in
  match LoadDefaultConfig_err env w cfg with
  | Some e => throw e
  | None => mret cfg
  end.

Definition HeadBucket (cl : s3.Client) (input : s3.HeadBucketInput.t) : M unit :=
  request (CallHeadBucket cl input)
    (fun w => of_err (HeadBucket_err env w cl input)).

Definition CreateBucket (cl : s3.Client) (input : s3.CreateBucketInput.t)
    : M unit :=
  request (CallCreateBucket cl input)
    (fun w => of_err (CreateBucket_err env w cl input)).

(** The bytes a reader of the open file [f] gets, from its offset on. *)
Definition read_all (w : World) (f : nat) : option (list byte) :=
  match files w !! f with
  | Some o =>
      match fs w !! Name o with
      | Some (file_node data) => Some (drop (offset o) data)
      | _ => None
      end
  | None => None
  end.

(** [client.PutObject(ctx, input)]: the body is read from the open file;
    a body that cannot be read fails the call before anything is sent. *)
Definition PutObject (cl : s3.Client) (input : s3.PutObjectInput.t) : M unit :=
  w ← get_world;
  match read_all w (s3.PutObjectInput.Body input) with
  | None => throw (sdk_error "failed to read the request body")
  | Some data =>
      request (CallPutObject cl input data)
        (fun w => of_err (PutObject_err env w cl input data))
  end.

(** [client.GetObject(ctx, input)]: a response comes with an open body. *)
Definition GetObject (cl : s3.Client) (input : s3.GetObjectInput.t)
    : M s3.Body :=
  out ← request (CallGetObject cl input) (fun w => GetObject_out env w cl input);
  w ← get_world;
  put_world (set_bodies (S (bodies w)) w);;
  mret out.

(** [out.Body.Close()]. *)
Definition Body_Close (out : s3.Body) : M unit :=
  w ← get_world;
  put_world (set_bodies (pred (bodies w)) w).

Definition DeleteObject (cl : s3.Client) (input : s3.DeleteObjectInput.t)
    : M unit :=
  request (CallDeleteObject cl input)
    (fun w => of_err (DeleteObject_err env w cl input)).

(** [manager.NewDownloader(client).Download(ctx, f, input)]: the bytes
    received are written into the open file [f] from its start, also when
    the download then fails. *)
Definition Download (cl : s3.Client) (f : nat) (input : s3.GetObjectInput.t)
    : M Z :=
  w ← get_world;
  let '(data, err) := Download_out env w cl input in
  request (CallDownload cl input) (fun _ => Ok tt);;
  w ← get_world;
  match files w !! f with
  | None => throw (PathError "write" "" ErrClosed)
  | Some o =>
      match fs w !! Name o with
      | Some (file_node old) =>
          put_world
            (set_fs (<[Name o := file_node (write_at 0 data old)]> (fs w)) w);;
          match err with
          | Some e => throw e
          | None => mret (Z.of_nat (length data))
          end
      | _ => throw (PathError "write" (Name o) EIO)
      end
  end.

(** [s3.NewPresignClient(client).PresignGetObject(ctx, input,
    s3.WithPresignExpires(exp))], giving [out.URL]. *)
Definition PresignGetObject (cl : s3.Client) (input : s3.GetObjectInput.t)
    (exp : Z) : M string :=
  w ← get_world;
  match PresignGetObject_out env w cl input exp with
  | Ok u => mret u
  | Err e => throw e
  end.

End with_env.
End s3api.

(** ** The methods of the connection (src/s3.go, lines 92-304) *)

Section driver.
Variable env : Env.

(** [Open] (lines 92-130). *)
Definition Open : M unit :=
  c ← this;
  let loadOpts := [config.WithRegion (Region (setting c))] in
  let loadOpts :=
    if nonempty (AccessKey (setting c)) || nonempty (SecretKey (setting c))
       || nonempty (SessionToken (setting c))
    then (loadOpts ++
           [config.WithCredentialsProvider
              (credentials.NewStaticCredentialsProvider
                 (AccessKey (setting c)) (SecretKey (setting c))
                 (SessionToken (setting c)))])%list
    else loadOpts in
  cfg ← s3api.LoadDefaultConfig env loadOpts;
  let clientOpts :=
    [fun o : s3.Options =>
       {| s3.UsePathStyle := UsePathStyle (setting c);
          s3.BaseEndpoint := s3.BaseEndpoint o |}] in
  let clientOpts :=
    if nonempty (Endpoint (setting c)) then
      let ep := Endpoint (setting c) in
      let ep :=
        if negb (strings.HasPrefix ep "http://")
           && negb (strings.HasPrefix ep "https://")
        then "https://" ++ ep else ep in
      (clientOpts ++
        [fun o : s3.Options =>
           {| s3.UsePathStyle := s3.UsePathStyle o;
              s3.BaseEndpoint := Some ep |}])%list
    else clientOpts in
  let client := s3.NewFromConfig cfg clientOpts in
  assign_client (Some client);;
  r ← attempt
        (s3api.HeadBucket env client
           {| s3.HeadBucketInput.Bucket := Bucket (setting c) |});
  match r with
  | Err _ =>
      s3api.CreateBucket env client
        {| s3.CreateBucketInput.Bucket := Bucket (setting c) |}
  | Ok _ => mret tt
  end.

(** [Health] (lines 132-137). *)
Definition Health : M storage.Health :=
  c ← this;
  match client c with
  | None => mret {| storage.Workload := 1 |}
  | Some _ => mret {| storage.Workload := 0 |}
  end.

(** [Close] (lines 139-142). *)
Definition Close : M unit :=
  assign_client None;;
  mret tt.

(** [Upload] (lines 144-209). *)
Definition Upload (original : string) (opt : storage.UploadOption.t)
    : M storage.File.t :=
  c ← this;
  match client c with
  | None => throw (errors_New "s3 client not ready")
  | Some cl =>
      st ← os.Stat original;
      if IsDir st then throw (errors_New "directory upload not supported")
      else if negb (nonempty (storage.UploadOption.Key opt)) then
        throw (errors_New "missing upload key")
      else
        let ext := path.Ext original in
        let ext :=
          match ext with
          | String _ ext' => ext'
          | EmptyString => ext
          end in
        let file :=
          storage.NewFile (instance c) (storage.UploadOption.Prefix opt)
            (storage.UploadOption.Key opt) ext (Size st) in
        let key := objectPath file in
        f ← os.Open env original;
        defer (os.File_Close f)
          (let input := putObjectInput (range_order env) c key f opt in
           s3api.PutObject env cl input;;
           mret file)
  end.

(** [Fetch] (lines 211-244). [name] is [tmp.Name()], read while the file is
    open. *)
Definition Fetch (file : storage.File.t) (opt : storage.FetchOption.t)
    : M tempStream :=
  c ← this;
  match client c with
  | None => throw (errors_New "s3 client not ready")
  | Some cl =>
      let input := getObjectInput c file opt in
      out ← s3api.GetObject env cl input;
      defer (s3api.Body_Close out)
        (tmp ← os.CreateTemp env "bamgoo-storage-s3-*";
         w ← get_world;
         let name := os.File_Name w tmp in
         r ← attempt (io.Copy env tmp out);
         match r with
         | Err err =>
             discard (os.File_Close tmp);;
             discard (os.Remove name);;
             throw err
         | Ok _ =>
             r ← attempt (os.File_Seek env tmp 0 0);
             match r with
             | Err err =>
                 discard (os.File_Close tmp);;
                 discard (os.Remove name);;
                 throw err
             | Ok _ => mret {| file := tmp; path_ := name |}
             end
         end)
  end.

(** [Download] (lines 246-274). *)
Definition Download (file : storage.File.t) (opt : storage.DownloadOption.t)
    : M string :=
  c ← this;
  match client c with
  | None => throw (errors_New "s3 client not ready")
  | Some cl =>
      let target := storage.DownloadOption.Target opt in
      if negb (nonempty target) then throw (errors_New "invalid target")
      else
        let download : M string :=
          os.MkdirAll env (path.Dir target);;
          f ← os.Create env target;
          defer (os.File_Close f)
            (s3api.Download env cl f
               {| s3.GetObjectInput.Bucket := Bucket (setting c);
                  s3.GetObjectInput.Key := objectPath file;
                  s3.GetObjectInput.Range := None |};;
             mret target) in
        st ← attempt (os.Stat target);
        match st with
        | Ok st => if negb (IsDir st) then mret target else download
        | Err _ => download
        end
  end.

(** [Remove] (lines 276-285). *)
Definition Remove (file : storage.File.t) (_ : storage.RemoveOption.t)
    : M unit :=
  c ← this;
  match client c with
  | None => throw (errors_New "s3 client not ready")
  | Some cl =>
      s3api.DeleteObject env cl
        {| s3.DeleteObjectInput.Bucket := Bucket (setting c);
           s3.DeleteObjectInput.Key := objectPath file |}
  end.

(** [Browse] (lines 287-304). *)
Definition Browse (file : storage.File.t) (opt : storage.BrowseOption.t)
    : M string :=
  c ← this;
  match client c with
  | None => throw (errors_New "s3 client not ready")
  | Some cl =>
      let exp := storage.BrowseOption.Expires opt in
      let exp := if (exp <=? 0)%Z then time.Hour else exp in
      s3api.PresignGetObject env cl
        {| s3.GetObjectInput.Bucket := Bucket (setting c);
           s3.GetObjectInput.Key := objectPath file;
           s3.GetObjectInput.Range := None |} exp
  end.


End driver.

(** ** The data operations as one family *)

Inductive DataOp : Type :=
| OpUpload (original : string) (opt : storage.UploadOption.t)
| OpFetch (file : storage.File.t) (opt : storage.FetchOption.t)
| OpDownload (file : storage.File.t) (opt : storage.DownloadOption.t)
| OpRemove (file : storage.File.t) (opt : storage.RemoveOption.t)
| OpBrowse (file : storage.File.t) (opt : storage.BrowseOption.t).

Inductive Output : Type :=
| OutFile (f : storage.File.t)
| OutStream (t : tempStream)
| OutPath (p : string)
| OutNone
| OutURL (u : string).

Definition run (env : Env) (op : DataOp) : M Output :=
  match op with
  | OpUpload original opt => f ← Upload env original opt; mret (OutFile f)
  | OpFetch file opt => t ← Fetch env file opt; mret (OutStream t)
  | OpDownload file opt => p ← Download env file opt; mret (OutPath p)
  | OpRemove file opt => Remove env file opt;; mret OutNone
  | OpBrowse file opt => u ← Browse env file opt; mret (OutURL u)
  end.

(** ** Error kinds

    The kinds under which the specification files the errors the driver
    returns. The driver's own [errors.New] values are the not-ready error
    and the three input checks; an error of package [os] that is passed
    through is a local I/O error, an error of the SDK a remote one. *)

Inductive ErrorKind : Type :=
| NotReadyError
| ValidationError
| RemoteError
| LocalIOError.

Definition error_kind (e : error) : ErrorKind :=
  match e with
  | errors_New msg =>
      if String.eqb msg "s3 client not ready" then NotReadyError
      else ValidationError
  | PathError _ _ _ => LocalIOError
  | sdk_error _ => RemoteError
  end.

(** ** Environments and values used in the examples *)

(** An object store that accepts every request and serves the two bytes
    "hi"; no local call fails. *)
Definition env_ok : Env :=
  {| range_order := fun l => l;
     range_order_perm := fun l => reflexivity l;
     LoadDefaultConfig_err := fun _ _ => None;
     HeadBucket_err := fun _ _ _ => None;
     CreateBucket_err := fun _ _ _ => None;
     PutObject_err := fun _ _ _ _ => None;
     GetObject_out := fun _ _ _ =>
       Ok {| s3.body_data := [x68; x69]; s3.body_err := None |};
     DeleteObject_err := fun _ _ _ => None;
     Download_out := fun _ _ _ => ([x68; x69], None);
     PresignGetObject_out := fun _ _ _ _ => Ok "https://signed.example/url";
     temp_name := fun _ _ => "/tmp/bamgoo-storage-s3-1";
     os_fault := fun _ _ => None |}.

(** As [env_ok], but [range] visits the keys of a map in reverse. *)
Definition env_reversed : Env :=
  {| range_order := reverse;
     range_order_perm := reverse_Permutation;
     LoadDefaultConfig_err := LoadDefaultConfig_err env_ok;
     HeadBucket_err := HeadBucket_err env_ok;
     CreateBucket_err := CreateBucket_err env_ok;
     PutObject_err := PutObject_err env_ok;
     GetObject_out := GetObject_out env_ok;
     DeleteObject_err := DeleteObject_err env_ok;
     Download_out := Download_out env_ok;
     PresignGetObject_out := PresignGetObject_out env_ok;
     temp_name := temp_name env_ok;
     os_fault := os_fault env_ok |}.

(** The bucket can neither be probed nor created. *)
Definition env_no_bucket : Env :=
  {| range_order := range_order env_ok;
     range_order_perm := range_order_perm env_ok;
     LoadDefaultConfig_err := LoadDefaultConfig_err env_ok;
     HeadBucket_err := fun _ _ _ => Some (sdk_error "NotFound");
     CreateBucket_err := fun _ _ _ => Some (sdk_error "AccessDenied");
     PutObject_err := PutObject_err env_ok;
     GetObject_out := GetObject_out env_ok;
     DeleteObject_err := DeleteObject_err env_ok;
     Download_out := Download_out env_ok;
     PresignGetObject_out := PresignGetObject_out env_ok;
     temp_name := temp_name env_ok;
     os_fault := os_fault env_ok |}.

(** The response body breaks after one byte. *)
Definition env_copy_fails : Env :=
  {| range_order := range_order env_ok;
     range_order_perm := range_order_perm env_ok;
     LoadDefaultConfig_err := LoadDefaultConfig_err env_ok;
     HeadBucket_err := HeadBucket_err env_ok;
     CreateBucket_err := CreateBucket_err env_ok;
     PutObject_err := PutObject_err env_ok;
     GetObject_out := fun _ _ _ =>
       Ok {| s3.body_data := [x68];
             s3.body_err := Some (sdk_error "connection reset") |};
     DeleteObject_err := DeleteObject_err env_ok;
     Download_out := Download_out env_ok;
     PresignGetObject_out := PresignGetObject_out env_ok;
     temp_name := temp_name env_ok;
     os_fault := os_fault env_ok |}.

Definition new_file (prefix key type : string) (size : Z) : storage.File.t :=
  {| storage.File.Prefix := prefix; storage.File.Key := key;
     storage.File.Type_ := type; storage.File.Size := size |}.

Definition instance_of (settings : gmap string any) : storage.Instance :=
  {| storage.Setting := settings; storage.NewFile := new_file |}.

(** A local file system with one regular file and one directory. *)
Definition world0 : World :=
  {| fs := <["/data/report.txt" := file_node [x61; x62; x63]]>
             (<["/data" := dir_node]> (<["/" := dir_node]> ∅));
     files := ∅; bodies := 0; calls := [] |}.

(** The connection [Connect] gives for [settings]. *)
Definition connected (settings : gmap string any) : s3Connection :=
  match Connect Driver (instance_of settings) with
  | Ok c => c
  | Err _ =>
      {| instance := instance_of settings;
         setting := {| Region := ""; Bucket := ""; AccessKey := "";
                       SecretKey := ""; SessionToken := ""; Endpoint := "";
                       UsePathStyle := false |};
         client := None |}
  end.

Definition a_client : s3.Client :=
  s3.NewFromConfig (config.WithRegion "us-east-1" config.no_options) [].

Definition state0 : State :=
  {| conn := connected ∅; world := world0 |}.

Definition ready0 : State :=
  {| conn := set_client (Some a_client) (connected ∅); world := world0 |}.

(** ** Vocabulary of the properties *)

(** What a setting contributes: its value when it is a non-empty string. *)
Definition nonempty_string (x : option any) : option string :=
  match x with
  | Some (any_string v) => if nonempty v then Some v else None
  | _ => None
  end.

(** The non-empty strings the settings hold under [keys], in the order of
    [keys]. *)
Definition nonempty_strings (m : gmap string any) (keys : list string)
    : list string :=
  omap (fun k => nonempty_string (m !! k)) keys.

(** The first of them, and the last of them; the empty string when there is
    none. *)
Definition first_or_empty (l : list string) : string := default "" (head l).

Definition last_or_empty (l : list string) : string := default "" (last l).

(** The synonyms of the access key and of the secret key, in the order in
    which [Connect] reads them. *)
Definition access_keys : list string := ["access"; "accesskey"; "access_key"].

Definition secret_keys : list string := ["secret"; "secretkey"; "secret_key"].

(** One tag, percent-encoded as key=value. *)
Definition encode_tag (tags : gmap string any) (k : string) : string :=
  url.QueryEscape k ++ "=" ++ url.QueryEscape (fmt.Sprintf_v (index tags k)).

(** The canonical tagging string of a tag mapping: its keys sorted, each
    tag encoded, the tags joined with "&". *)
Definition canonical_tagging (tags : gmap string any) : string :=
  strings.Join (map (encode_tag tags) (sort.Strings (map_to_list tags).*1)) "&".

(** [keeps R m]: from every state, [m] ends in a state related by [R] to the
    one it started in, whether it returns a value or an error. *)
Definition keeps {A} (R : relation State) (m : M A) : Prop :=
  forall s, R s (m s).2.

(** The connection object is the same. *)
Definition same_conn : relation State := fun s s' => conn s' = conn s.

(** Nothing was sent to the object store. *)
Definition same_calls : relation State :=
  fun s s' => calls (world s') = calls (world s).

(** The local file system and the open files are the same. *)
Definition same_files : relation State :=
  fun s s' =>
    fs (world s') = fs (world s) /\ files (world s') = files (world s).

(** The instance and the settings of the connection are the same. *)
Definition same_setting : relation State := fun s s' =>
  instance (conn s') = instance (conn s) /\ setting (conn s') = setting (conn s).

(** ** More values used in the examples *)

Definition both_access_keys : gmap string any :=
  <["access" := any_string "A"]> (<["access_key" := any_string "B"]> ∅).

Definition a_file : storage.File.t := new_file "docs" "k" "txt" 3.

Definition tagged_upload : storage.UploadOption.t :=
  {| storage.UploadOption.Key := "k";
     storage.UploadOption.Prefix := "docs";
     storage.UploadOption.Mimetype := "";
     storage.UploadOption.Expires := 0;
     storage.UploadOption.Metadata := ∅;
     storage.UploadOption.Tags :=
       <["b" := any_string "2"]> (<["a" := any_string "1"]> ∅) |}.

Definition keyless_upload : storage.UploadOption.t :=
  {| storage.UploadOption.Key := "";
     storage.UploadOption.Prefix := "docs";
     storage.UploadOption.Mimetype := "";
     storage.UploadOption.Expires := 0;
     storage.UploadOption.Metadata := ∅;
     storage.UploadOption.Tags := ∅ |}.

Definition whole_object : storage.FetchOption.t :=
  {| storage.FetchOption.Start := 0; storage.FetchOption.End_ := 0 |}.

(** ** Tables from the tests of the Go library

    Inputs and expected results of [path.Clean], [path.Join], [path.Ext],
    [path.Dir] and [url.QueryEscape], as the tests of the Go standard
    library list them. *)

Definition cleantests : list (string * string) :=
  [("", "."); ("abc", "abc"); ("abc/def", "abc/def"); ("a/b/c", "a/b/c");
   (".", "."); ("..", ".."); ("../..", "../.."); ("../../abc", "../../abc");
   ("/abc", "/abc"); ("/", "/"); ("abc/", "abc"); ("abc/def/", "abc/def");
   ("a/b/c/", "a/b/c"); ("./", "."); ("../", ".."); ("../../", "../..");
   ("/abc/", "/abc"); ("abc//def//ghi", "abc/def/ghi"); ("//abc", "/abc");
   ("///abc", "/abc"); ("//abc//", "/abc"); ("abc//", "abc");
   ("abc/./def", "abc/def"); ("/./abc/def", "/abc/def"); ("abc/.", "abc");
   ("abc/def/ghi/../jkl", "abc/def/jkl"); ("abc/def/../ghi/../jkl", "abc/jkl");
   ("abc/def/..", "abc"); ("abc/def/../..", "."); ("/abc/def/../..", "/");
   ("abc/def/../../..", ".."); ("/abc/def/../../..", "/");
   ("abc/def/../../../ghi/jkl/../../../mno", "../../mno");
   ("abc/./../def", "def"); ("abc//./../def", "def");
   ("abc/../../././../def", "../../def")].

Definition jointests : list (list string * string) :=
  [([], ""); ([""], ""); (["a"], "a"); (["a"; "b"], "a/b"); (["a"; ""], "a");
   ([""; "b"], "b"); (["/"; "a"], "/a"); (["/"; ""], "/"); (["a/"; "b"], "a/b");
   (["a/"; ""], "a"); ([""; ""], "")].

Definition exttests : list (string * string) :=
  [("path.go", ".go"); ("path.pb.go", ".go"); ("a.dir/b", "");
   ("a.dir/b.go", ".go"); ("a.dir/", "")].

Definition dirtests : list (string * string) :=
  [("", "."); (".", "."); ("/.", "/"); ("/", "/"); ("////", "/"); ("/foo", "/");
   ("x/", "x"); ("abc", "."); ("abc/def", "abc"); ("abc////def", "abc");
   ("a/b/.x", "a/b"); ("a/b/c.", "a/b"); ("a/b/c.x", "a/b")].

Definition escapetests : list (string * string) :=
  [("", ""); ("abc", "abc"); ("one two", "one+two"); ("10%", "10%25");
   (" ?&=#+%!<>#{}|\^[]`:/@$'()*,;",
    "+%3F%26%3D%23%2B%25%21%3C%3E%23%7B%7D%7C%5C%5E%5B%5D%60%3A%2F%40%24%27%28%29%2A%2C%3B")].

(** ** The methods of the stream (src/s3.go, lines 314-324)

    The three reading methods hand their arguments to the open file. Reads
    of a local file are not subject to injected faults. *)

(** [io.EOF]. *)
Definition io_EOF : error := errors_New "EOF".

(** [f.Read(p)] with [len(p) = n]: the bytes read, at most [n] from the
    offset of the file on, which moves past them; at the end of the file
    the error is [io.EOF]. *)
Definition File_Read (f : nat) (n : nat) : M (list byte) :=
  w ← get_world;
  match files w !! f with
  | None => throw (PathError "read" "" ErrClosed)
  | Some o =>
      match fs w !! Name o with
      | Some (file_node data) =>
          let got := take n (drop (offset o) data) in
          if (n =? 0)%nat then mret []
          else
            match got with
            | [] => throw io_EOF
            | _ =>
                put_world
                  (set_files
                     (<[f := {| Name := Name o;
                                offset := offset o + length got |}]> (files w))
                     w);;
                mret got
            end
      | _ => throw (PathError "read" (Name o) EISDIR)
      end
  end.

(** [f.ReadAt(p, off)] with [len(p) = n]: the bytes read from byte [off] on,
    and the error that comes with them, [io.EOF] when they are fewer than
    [n]. The offset of the file stays. *)
Definition File_ReadAt (f : nat) (n : nat) (off : Z)
    : M (list byte * option error) :=
  w ← get_world;
  match files w !! f with
  | None => throw (PathError "read" "" ErrClosed)
  | Some o =>
      if (off <? 0)%Z then throw (PathError "readat" (Name o) EINVAL)
      else
        match fs w !! Name o with
        | Some (file_node data) =>
            let got := take n (drop (Z.to_nat off) data) in
            mret (got, if (length got <? n)%nat then Some io_EOF else None)
        | _ => throw (PathError "read" (Name o) EISDIR)
        end
  end.

(** [tempStream.Read] (lines 314-316). *)
Definition tempStream_Read (t : tempStream) (n : nat) : M (list byte) :=
  File_Read (file t) n.

(** [tempStream.Seek] (lines 318-320). *)
Definition tempStream_Seek (env : Env) (t : tempStream) (off : Z) (whence : Z)
    : M Z :=
  os.File_Seek env (file t) off whence.

(** [tempStream.ReadAt] (lines 322-324). *)
Definition tempStream_ReadAt (t : tempStream) (n : nat) (off : Z)
    : M (list byte * option error) :=
  File_ReadAt (file t) n off.

(** ** Vocabulary of the further properties *)

(** The configuration [Open] asks the SDK to load for the settings: the
    region, and static credentials when the access key, the secret key or
    the session token is set. *)
Definition config_of (st : s3Setting) : config.LoadOptions :=
  {| config.Region := Region st;
     config.Credentials :=
       if nonempty (AccessKey st) || nonempty (SecretKey st)
          || nonempty (SessionToken st)
       then Some (credentials.NewStaticCredentialsProvider
                    (AccessKey st) (SecretKey st) (SessionToken st))
       else None |}.

(** The base endpoint of the client: none when the setting is empty, the
    setting when it names its scheme, the setting after "https://"
    otherwise. *)
Definition endpoint_of (st : s3Setting) : option string :=
  if nonempty (Endpoint st) then
    Some (if strings.HasPrefix (Endpoint st) "http://"
             || strings.HasPrefix (Endpoint st) "https://"
          then Endpoint st else "https://" ++ Endpoint st)
  else None.

(** The client [Open] builds for the settings. *)
Definition client_of (st : s3Setting) : s3.Client :=
  {| s3.Config := config_of st;
     s3.Opts := {| s3.UsePathStyle := UsePathStyle st;
                   s3.BaseEndpoint := endpoint_of st |} |}.

(** The type [Upload] gives the new file: the extension of the local path
    without its dot. *)
Definition upload_type (original : string) : string :=
  match path.Ext original with
  | String _ ext' => ext'
  | EmptyString => path.Ext original
  end.

(** No byte of the string is a dot or a slash. *)
Fixpoint no_dot_slash (s : string) : bool :=
  match s with
  | EmptyString => true
  | String c r => negb (path.is_dot c) && negb (path.is_slash c) && no_dot_slash r
  end.

(** Every response body that was opened has been closed. *)
Definition same_bodies : relation State :=
  fun s s' => bodies (world s') = bodies (world s).

(** The open files are the same. *)
Definition same_open : relation State :=
  fun s s' => files (world s') = files (world s).

(** ** Further environments and values used in the examples *)

(** The configuration cannot be loaded. *)
Definition env_no_config : Env :=
  {| range_order := range_order env_ok;
     range_order_perm := range_order_perm env_ok;
     LoadDefaultConfig_err := fun _ _ => Some (sdk_error "no region");
     HeadBucket_err := HeadBucket_err env_ok;
     CreateBucket_err := CreateBucket_err env_ok;
     PutObject_err := PutObject_err env_ok;
     GetObject_out := GetObject_out env_ok;
     DeleteObject_err := DeleteObject_err env_ok;
     Download_out := Download_out env_ok;
     PresignGetObject_out := PresignGetObject_out env_ok;
     temp_name := temp_name env_ok;
     os_fault := os_fault env_ok |}.

(** The bucket is missing and can be created. *)
Definition env_new_bucket : Env :=
  {| range_order := range_order env_ok;
     range_order_perm := range_order_perm env_ok;
     LoadDefaultConfig_err := LoadDefaultConfig_err env_ok;
     HeadBucket_err := fun _ _ _ => Some (sdk_error "NotFound");
     CreateBucket_err := CreateBucket_err env_ok;
     PutObject_err := PutObject_err env_ok;
     GetObject_out := GetObject_out env_ok;
     DeleteObject_err := DeleteObject_err env_ok;
     Download_out := Download_out env_ok;
     PresignGetObject_out := PresignGetObject_out env_ok;
     temp_name := temp_name env_ok;
     os_fault := os_fault env_ok |}.

(** Settings with an endpoint that names no scheme, and an access key. *)
Definition minio_settings : gmap string any :=
  <["endpoint" := any_string "minio.local:9000"]>
    (<["access" := any_string "AK"]>
       (<["force_path_style" := any_bool true]>
          (<["path_style" := any_bool false]> ∅))).


(** The object store refuses the upload. *)
Definition env_put_fails : Env :=
  {| range_order := range_order env_ok;
     range_order_perm := range_order_perm env_ok;
     LoadDefaultConfig_err := LoadDefaultConfig_err env_ok;
     HeadBucket_err := HeadBucket_err env_ok;
     CreateBucket_err := CreateBucket_err env_ok;
     PutObject_err := fun _ _ _ _ => Some (sdk_error "AccessDenied");
     GetObject_out := GetObject_out env_ok;
     DeleteObject_err := DeleteObject_err env_ok;
     Download_out := Download_out env_ok;
     PresignGetObject_out := PresignGetObject_out env_ok;
     temp_name := temp_name env_ok;
     os_fault := os_fault env_ok |}.

(** The local file system is the same. *)
Definition same_fs : relation State :=
  fun s s' => fs (world s') = fs (world s).

(** A store that serves an empty object. *)
Definition env_empty_object : Env :=
  {| range_order := range_order env_ok;
     range_order_perm := range_order_perm env_ok;
     LoadDefaultConfig_err := LoadDefaultConfig_err env_ok;
     HeadBucket_err := HeadBucket_err env_ok;
     CreateBucket_err := CreateBucket_err env_ok;
     PutObject_err := PutObject_err env_ok;
     GetObject_out := fun _ _ _ =>
       Ok {| s3.body_data := []; s3.body_err := None |};
     DeleteObject_err := DeleteObject_err env_ok;
     Download_out := Download_out env_ok;
     PresignGetObject_out := PresignGetObject_out env_ok;
     temp_name := temp_name env_ok;
     os_fault := os_fault env_ok |}.

(** The download breaks after one byte. *)
Definition env_download_fails : Env :=
  {| range_order := range_order env_ok;
     range_order_perm := range_order_perm env_ok;
     LoadDefaultConfig_err := LoadDefaultConfig_err env_ok;
     HeadBucket_err := HeadBucket_err env_ok;
     CreateBucket_err := CreateBucket_err env_ok;
     PutObject_err := PutObject_err env_ok;
     GetObject_out := GetObject_out env_ok;
     DeleteObject_err := DeleteObject_err env_ok;
     Download_out := fun _ _ _ => ([x68], Some (sdk_error "connection reset"));
     PresignGetObject_out := PresignGetObject_out env_ok;
     temp_name := temp_name env_ok;
     os_fault := os_fault env_ok |}.

Definition to_copy : storage.DownloadOption.t :=
  {| storage.DownloadOption.Target := "/data/copy.bin" |}.

Definition to_new_dir : storage.DownloadOption.t :=
  {| storage.DownloadOption.Target := "/cache/a/copy.bin" |}.

Definition to_directory : storage.DownloadOption.t :=
  {| storage.DownloadOption.Target := "/data" |}.

(** ** The shape of a cleaned path *)

(** No two neighbouring bytes are both slashes. *)
Fixpoint no_adjacent_slashes (l : list ascii) : bool :=
  match l with
  | [] => true
  | a :: t =>
      match t with
      | b :: _ => negb (path.is_slash a && path.is_slash b)
      | [] => true
      end && no_adjacent_slashes t
  end.

(** The path has no empty element between two slashes. *)
Definition no_double_slash (s : string) : bool :=
  no_adjacent_slashes (list_ascii_of_string s).

(** The last byte of the path is a slash. *)
Definition ends_with_slash (s : string) : bool :=
  match last (list_ascii_of_string s) with
  | Some c => path.is_slash c
  | None => false
  end.

(** The first byte of the list, if any, is not a slash. *)
Definition head_not_slash (l : list ascii) : Prop :=
  match l with
  | [] => True
  | c :: _ => path.is_slash c = false
  end.

(** What the loop of [path.Clean] keeps true of its buffer (last byte
    first): no two slashes meet; the first [dotdot] bytes written, [pre],
    are the root slash of a rooted path and end in a byte that is not a
    slash otherwise; what was written after them, [rest], does not end in a
    slash. *)
Definition clean_inv (rooted : bool) (out : list ascii) (dotdot : nat) : Prop :=
  no_adjacent_slashes out = true
  /\ exists rest pre,
       out = (rest ++ pre)%list
       /\ length pre = dotdot
       /\ (if rooted then pre = ["/"%char] else head_not_slash pre)
       /\ head_not_slash rest.

(** * Properties *)

(** ** Strings *)

Lemma nonempty_true (s : string) : nonempty s = true <-> s <> "".
Proof. destruct s; simpl; split; congruence. Qed.

Lemma nonempty_false (s : string) : nonempty s = false <-> s = "".
Proof. destruct s; simpl; split; congruence. Qed.

(** The library functions, as modelled, give the results the tests of the Go
    library expect. *)
Example library_tables :
  Forall (fun t => path.Clean t.1 = t.2) cleantests
  /\ Forall (fun t => path.Join t.1 = t.2) jointests
  /\ Forall (fun t => path.Ext t.1 = t.2) exttests
  /\ Forall (fun t => path.Dir t.1 = t.2) dirtests
  /\ Forall (fun t => url.QueryEscape t.1 = t.2) escapetests.
Proof.
  repeat split; repeat (constructor; [vm_compute; reflexivity | ]); constructor.
Qed.

(** ** Configuration normaliser *)

Section normaliser.

Lemma if_string_eq (x : option any) assign (s : s3Setting) :
  if_string x assign s =
  match nonempty_string x with
  | Some v => assign v s
  | None => s
  end.
Proof.
  unfold if_string, nonempty_string, assert_string.
  destruct x as [[ | v | | | ] | ]; try reflexivity.
  destruct (nonempty v); reflexivity.
Qed.

(** An assignment to one field is not seen through another field. *)
Lemma if_string_frame {B} (proj : s3Setting -> B) x assign (s : s3Setting) :
  (forall v s', proj (assign v s') = proj s') ->
  proj (if_string x assign s) = proj s.
Proof.
  intros Hframe. rewrite if_string_eq.
  destruct (nonempty_string x); [apply Hframe | reflexivity].
Qed.

Lemma if_bool_frame {B} (proj : s3Setting -> B) x assign (s : s3Setting) :
  (forall v s', proj (assign v s') = proj s') ->
  proj (if_bool x assign s) = proj s.
Proof.
  intros Hframe. unfold if_bool.
  destruct (assert_bool x); [apply Hframe | reflexivity].
Qed.

Lemma nonempty_string_nonempty x v : nonempty_string x = Some v -> v <> "".
Proof.
  unfold nonempty_string. destruct x as [[ | v' | | | ] | ]; try discriminate.
  destruct (nonempty v') eqn:Hv; [ | discriminate].
  intros [= <-]. by apply nonempty_true.
Qed.

Lemma nonempty_string_Some (m : gmap string any) (k : string) v :
  m !! k = Some (any_string v) -> v <> "" ->
  nonempty_string (m !! k) = Some v.
Proof.
  intros -> Hv. simpl. apply nonempty_true in Hv. by rewrite Hv.
Qed.

Lemma AccessKey_if_string x (s : s3Setting) :
  AccessKey (if_string x set_AccessKey s)
  = default (AccessKey s) (nonempty_string x).
Proof. rewrite if_string_eq. destruct (nonempty_string x); reflexivity. Qed.

Lemma SecretKey_if_string x (s : s3Setting) :
  SecretKey (if_string x set_SecretKey s)
  = default (SecretKey s) (nonempty_string x).
Proof. rewrite if_string_eq. destruct (nonempty_string x); reflexivity. Qed.

End normaliser.

Ltac frame_settings :=
  repeat first
    [ rewrite (if_bool_frame Region) by reflexivity
    | rewrite (if_bool_frame Bucket) by reflexivity
    | rewrite (if_bool_frame AccessKey) by reflexivity
    | rewrite (if_bool_frame SecretKey) by reflexivity
    | rewrite (if_string_frame Region) by reflexivity
    | rewrite (if_string_frame Bucket) by reflexivity
    | rewrite (if_string_frame AccessKey) by reflexivity
    | rewrite (if_string_frame SecretKey) by reflexivity ].

(** C2. [Connect] never fails. The connection it returns has no client yet;
    its region is the "region" setting when that is a non-empty string and
    "us-east-1" otherwise, its bucket the "bucket" setting when that is a
    non-empty string and "default" otherwise, and its bucket is never
    empty. *)
Theorem Connect_never_fails (d : s3Driver) (inst : storage.Instance) :
  exists c : s3Connection,
    Connect d inst = Ok c
    /\ instance c = inst
    /\ client c = None
    /\ Region (setting c) =
         default "us-east-1" (nonempty_string (storage.Setting inst !! "region"))
    /\ Bucket (setting c) =
         default "default" (nonempty_string (storage.Setting inst !! "bucket"))
    /\ Bucket (setting c) <> "".
Proof.
  unfold Connect. eexists. split; [reflexivity | ]. cbn [instance client setting].
  split; [reflexivity | ]. split; [reflexivity | ].
  match goal with
  | |- context [if nonempty (Bucket ?s) then _ else _] => set (st := s)
  end.
  assert (HR : Region st =
    default "us-east-1" (nonempty_string (storage.Setting inst !! "region"))).
  { subst st. frame_settings. rewrite if_string_eq.
    destruct (nonempty_string (storage.Setting inst !! "region")); reflexivity. }
  assert (HB : Bucket st =
    default "default" (nonempty_string (storage.Setting inst !! "bucket"))).
  { subst st. frame_settings. rewrite if_string_eq.
    destruct (nonempty_string (storage.Setting inst !! "bucket"));
      simpl; frame_settings; reflexivity. }
  assert (HBne : Bucket st <> "").
  { rewrite HB.
    destruct (nonempty_string (storage.Setting inst !! "bucket")) eqn:Hb; simpl.
    - by apply nonempty_string_nonempty in Hb.
    - discriminate. }
  apply nonempty_true in HBne. rewrite HBne.
  apply nonempty_true in HBne. auto.
Qed.

(** The example of the specification: an empty bucket setting falls back to
    "default", the region setting is kept. *)
Example Connect_empty_bucket :
  let settings : gmap string any :=
    <["bucket" := any_string ""]> (<["region" := any_string "eu-west-1"]> ∅) in
  exists c, Connect Driver (instance_of settings) = Ok c
    /\ Bucket (setting c) = "default" /\ Region (setting c) = "eu-west-1".
Proof. eexists. split; [reflexivity | ]. split; vm_compute; reflexivity. Qed.

(** C3, as the code has it. The access key is the last non-empty string
    among the settings "access", "accesskey" and "access_key" taken in that
    order (each later key that holds a non-empty string overwrites the
    earlier ones), and empty when none holds one; likewise the secret key
    over "secret", "secretkey" and "secret_key". In particular "access_key"
    wins over "access", and "secret_key" over "secret", when both hold
    non-empty strings. *)
Theorem Connect_last_synonym_wins (d : s3Driver) (inst : storage.Instance)
    (c : s3Connection) :
  Connect d inst = Ok c ->
  AccessKey (setting c)
    = last_or_empty (nonempty_strings (storage.Setting inst) access_keys)
  /\ SecretKey (setting c)
    = last_or_empty (nonempty_strings (storage.Setting inst) secret_keys)
  /\ (forall a b,
        storage.Setting inst !! "access" = Some (any_string a) -> a <> "" ->
        storage.Setting inst !! "access_key" = Some (any_string b) -> b <> "" ->
        AccessKey (setting c) = b)
  /\ (forall a b,
        storage.Setting inst !! "secret" = Some (any_string a) -> a <> "" ->
        storage.Setting inst !! "secret_key" = Some (any_string b) -> b <> "" ->
        SecretKey (setting c) = b).
Proof.
  unfold Connect. intros [= <-]. cbn [setting].
  match goal with
  | |- context [if nonempty (Bucket ?s) then _ else _] => set (st := s)
  end.
  assert (HA : AccessKey (if nonempty (Bucket st) then st
                          else set_Bucket "default" st)
               = last_or_empty
                   (nonempty_strings (storage.Setting inst) access_keys)).
  { transitivity (AccessKey st); [destruct (nonempty (Bucket st)); reflexivity | ].
    subst st. frame_settings. rewrite !AccessKey_if_string. frame_settings.
    unfold nonempty_strings, last_or_empty, access_keys. cbn [omap list_omap].
    destruct (nonempty_string (storage.Setting inst !! "access"));
      destruct (nonempty_string (storage.Setting inst !! "accesskey"));
      destruct (nonempty_string (storage.Setting inst !! "access_key"));
      reflexivity. }
  assert (HS : SecretKey (if nonempty (Bucket st) then st
                          else set_Bucket "default" st)
               = last_or_empty
                   (nonempty_strings (storage.Setting inst) secret_keys)).
  { transitivity (SecretKey st); [destruct (nonempty (Bucket st)); reflexivity | ].
    subst st. frame_settings. rewrite !SecretKey_if_string. frame_settings.
    unfold nonempty_strings, last_or_empty, secret_keys. cbn [omap list_omap].
    destruct (nonempty_string (storage.Setting inst !! "secret"));
      destruct (nonempty_string (storage.Setting inst !! "secretkey"));
      destruct (nonempty_string (storage.Setting inst !! "secret_key"));
      reflexivity. }
  split; [exact HA | ]. split; [exact HS | ]. clearbody st. split.
  - intros a b Ha Hane Hb Hbne. rewrite HA.
    unfold nonempty_strings, last_or_empty, access_keys. cbn [omap list_omap].
    rewrite (nonempty_string_Some _ _ _ Ha Hane).
    rewrite (nonempty_string_Some _ _ _ Hb Hbne).
    destruct (nonempty_string (storage.Setting inst !! "accesskey")); reflexivity.
  - intros a b Ha Hane Hb Hbne. rewrite HS.
    unfold nonempty_strings, last_or_empty, secret_keys. cbn [omap list_omap].
    rewrite (nonempty_string_Some _ _ _ Ha Hane).
    rewrite (nonempty_string_Some _ _ _ Hb Hbne).
    destruct (nonempty_string (storage.Setting inst !! "secretkey")); reflexivity.
Qed.

(** With "access" = "A" and "access_key" = "B" the access key is "B". *)
Lemma Connect_last_synonym_wins_witness :
  AccessKey (setting (connected both_access_keys)) = "B".
Proof.
  apply (proj1 (proj2 (proj2
           (Connect_last_synonym_wins Driver (instance_of both_access_keys)
              (connected both_access_keys) eq_refl))) "A" "B");
    [reflexivity | discriminate | reflexivity | discriminate].
Defined.

(** C3, as the specification words it, fails: with "access" and "access_key" both
    set, the first non-empty string in the order of the keys is that of
    "access", and the access key is that of "access_key". *)
Lemma Connect_access_key_not_first :
  exists c,
    Connect Driver (instance_of both_access_keys) = Ok c
    /\ first_or_empty (nonempty_strings both_access_keys access_keys) = "A"
    /\ AccessKey (setting c) = "B"
    /\ AccessKey (setting c)
         <> first_or_empty (nonempty_strings both_access_keys access_keys).
Proof.
  eexists. split; [reflexivity | ].
  split; [vm_compute; reflexivity | ].
  split; [vm_compute; reflexivity | ].
  vm_compute. discriminate.
Qed.

(** ** Object key resolver *)

(** C4. The object path is a function of the prefix, the key and the type
    of the file alone: it is [join(prefix, key + "." + type)] when the type
    is not empty and [join(prefix, key)] when it is, and two files with the
    same prefix, key and type have the same object path. *)
Theorem objectPath_function_of_triple (file file' : storage.File.t) :
  storage.File.Prefix file' = storage.File.Prefix file ->
  storage.File.Key file' = storage.File.Key file ->
  storage.File.Type_ file' = storage.File.Type_ file ->
  objectPath file' = objectPath file
  /\ objectPath file =
       if decide (storage.File.Type_ file = "")
       then path.Join [storage.File.Prefix file; storage.File.Key file]
       else path.Join [storage.File.Prefix file;
                       storage.File.Key file ++ "." ++ storage.File.Type_ file].
Proof.
  intros Hp Hk Ht. unfold objectPath. rewrite Hp, Hk, Ht.
  split; [reflexivity | ].
  destruct (decide (storage.File.Type_ file = "")) as [He | Hne].
  - apply nonempty_false in He. by rewrite He.
  - apply nonempty_true in Hne. by rewrite Hne.
Qed.

(** Two files that differ in size only have the same object path. *)
Lemma objectPath_function_of_triple_witness :
  objectPath (new_file "docs/" "report" "txt" 7)
    = objectPath (new_file "docs/" "report" "txt" 3)
  /\ objectPath (new_file "docs/" "report" "txt" 3) = "docs/report.txt".
Proof.
  apply (objectPath_function_of_triple
           (new_file "docs/" "report" "txt" 3)
           (new_file "docs/" "report" "txt" 7));
    reflexivity.
Defined.

(** Joining normalises the separators, and a file without a type has no
    dot appended. *)
Example objectPath_examples :
  objectPath (new_file "a//b/" "k" "png" 0) = "a/b/k.png"
  /\ objectPath (new_file "" "k" "" 0) = "k"
  /\ objectPath (new_file "a" "k" "" 0) = "a/k".
Proof. repeat split; vm_compute; reflexivity. Qed.

(** ** What a computation leaves alone *)

Section keeps.
Context (R : relation State) `{!PreOrder R}.

Lemma keeps_mret {A} (a : A) : keeps R (mret a).
Proof. intros s. simpl. reflexivity. Qed.

Lemma keeps_throw {A} (e : error) : keeps R (@throw A e).
Proof. intros s. simpl. reflexivity. Qed.

Lemma keeps_this : keeps R this.
Proof. intros s. simpl. reflexivity. Qed.

Lemma keeps_get_world : keeps R get_world.
Proof. intros s. simpl. reflexivity. Qed.

Lemma keeps_bind {A B} (m : M A) (f : A -> M B) :
  keeps R m -> (forall a, keeps R (f a)) -> keeps R (m ≫= f).
Proof.
  intros Hm Hf s. unfold mbind, M_bind. specialize (Hm s).
  destruct (m s) as [[a | e] s']; simpl in *; [ | exact Hm].
  etransitivity; [exact Hm | apply Hf].
Qed.

Lemma keeps_attempt {A} (m : M A) : keeps R m -> keeps R (attempt m).
Proof.
  intros Hm s. unfold attempt. specialize (Hm s).
  destruct (m s) as [r s']; exact Hm.
Qed.

Lemma keeps_discard {A} (m : M A) : keeps R m -> keeps R (discard m).
Proof.
  intros Hm s. unfold discard. specialize (Hm s).
  destruct (m s) as [r s']; exact Hm.
Qed.

Lemma keeps_defer {A B} (d : M B) (m : M A) :
  keeps R d -> keeps R m -> keeps R (defer d m).
Proof.
  intros Hd Hm s. unfold defer. specialize (Hm s).
  destruct (m s) as [r s']. specialize (Hd s').
  destruct (d s') as [r' s'']. simpl in *. etransitivity; eassumption.
Qed.

Lemma keeps_of_errno {A} op name (r : Errno + A) : keeps R (of_errno op name r).
Proof. destruct r; intros s; simpl; reflexivity. Qed.

End keeps.

(** The relations that are kept. *)

#[local] Instance same_conn_preorder : PreOrder same_conn.
Proof. split; [intros s; reflexivity | intros s1 s2 s3; unfold same_conn; congruence]. Qed.

#[local] Instance same_calls_preorder : PreOrder same_calls.
Proof. split; [intros s; reflexivity | intros s1 s2 s3; unfold same_calls; congruence]. Qed.

#[local] Instance same_files_preorder : PreOrder same_files.
Proof.
  split; [intros s; split; reflexivity | ].
  intros s1 s2 s3 [H1 H2] [H3 H4]. split; congruence.
Qed.

(** A step that replaces the world keeps the connection. *)
Lemma keeps_conn_put_world w : keeps same_conn (put_world w).
Proof. intros s. reflexivity. Qed.

Create HintDb keeps discriminated.

Ltac keeps_step :=
  match goal with
  | |- PreOrder _ => exact _
  | |- forall _, _ => intro
  | |- keeps _ (mret _) => apply keeps_mret
  | |- keeps _ (throw _) => apply keeps_throw
  | |- keeps _ this => apply keeps_this
  | |- keeps _ get_world => apply keeps_get_world
  | |- keeps _ (of_errno _ _ _) => apply keeps_of_errno
  | |- keeps same_conn (put_world _) => apply keeps_conn_put_world
  | |- keeps _ (mbind _ _) => apply keeps_bind
  | |- keeps _ (attempt _) => apply keeps_attempt
  | |- keeps _ (discard _) => apply keeps_discard
  | |- keeps _ (defer _ _) => apply keeps_defer
  | |- keeps _ (match ?x with _ => _ end) => destruct x
  | |- keeps _ _ => solve [auto with keeps]
  end.

Ltac keeps_auto := repeat keeps_step.

Ltac unfold_M :=
  unfold mbind, M_bind, mret, M_ret, throw, attempt, discard, defer, this,
    get_world, put_world, assign_client, of_errno, s3api.request in *.

(** Decides a [keeps] goal on a primitive by running it. *)
Ltac keeps_run :=
  intros s; unfold_M; unfold open_new in *; simpl;
  repeat case_match; simplify_eq/=; try reflexivity; try (split; reflexivity).

(** *** The local calls send nothing and keep the connection *)

Section local_calls.
Variable env : Env.

Lemma os_Stat_conn name : keeps same_conn (os.Stat name).
Proof. unfold os.Stat. keeps_auto. Qed.
Lemma os_Open_conn name : keeps same_conn (os.Open env name).
Proof. unfold os.Open. keeps_auto. Qed.
Lemma os_CreateTemp_conn pattern : keeps same_conn (os.CreateTemp env pattern).
Proof. unfold os.CreateTemp. keeps_auto. Qed.
Lemma os_File_Write_conn f data : keeps same_conn (os.File_Write env f data).
Proof. unfold os.File_Write. keeps_auto. Qed.
Lemma os_File_Seek_conn f off whence :
  keeps same_conn (os.File_Seek env f off whence).
Proof. unfold os.File_Seek. keeps_auto. Qed.
Lemma os_File_Close_conn f : keeps same_conn (os.File_Close f).
Proof. unfold os.File_Close. keeps_auto. Qed.
Lemma os_Remove_conn name : keeps same_conn (os.Remove name).
Proof. unfold os.Remove. keeps_auto. Qed.
Lemma os_MkdirAll_conn name : keeps same_conn (os.MkdirAll env name).
Proof. unfold os.MkdirAll. keeps_auto. Qed.
Lemma os_Create_conn name : keeps same_conn (os.Create env name).
Proof. unfold os.Create. keeps_auto. Qed.
Lemma io_Copy_conn dst src : keeps same_conn (io.Copy env dst src).
Proof. unfold io.Copy. keeps_auto. apply os_File_Write_conn. Qed.

Lemma os_Stat_calls name : keeps same_calls (os.Stat name).
Proof. unfold os.Stat. keeps_auto. Qed.
Lemma os_Open_calls name : keeps same_calls (os.Open env name).
Proof. unfold os.Open. keeps_run. Qed.
Lemma os_CreateTemp_calls pattern : keeps same_calls (os.CreateTemp env pattern).
Proof. unfold os.CreateTemp. keeps_run. Qed.
Lemma os_File_Write_calls f data : keeps same_calls (os.File_Write env f data).
Proof. unfold os.File_Write. keeps_run. Qed.
Lemma os_File_Seek_calls f off whence :
  keeps same_calls (os.File_Seek env f off whence).
Proof. unfold os.File_Seek. keeps_run. Qed.
Lemma os_File_Close_calls f : keeps same_calls (os.File_Close f).
Proof. unfold os.File_Close. keeps_run. Qed.
Lemma os_Remove_calls name : keeps same_calls (os.Remove name).
Proof. unfold os.Remove. keeps_run. Qed.
Lemma os_MkdirAll_calls name : keeps same_calls (os.MkdirAll env name).
Proof.
  intros s. unfold os.MkdirAll, same_calls. unfold_M. cbn -[os.mkdir_all].
  destruct (os.mkdir_all _ _ _ _ _); reflexivity.
Qed.
Lemma os_Create_calls name : keeps same_calls (os.Create env name).
Proof. unfold os.Create. keeps_run. Qed.
Lemma io_Copy_calls dst src : keeps same_calls (io.Copy env dst src).
Proof. unfold io.Copy. keeps_auto. apply os_File_Write_calls. Qed.

End local_calls.

#[export] Hint Resolve os_Stat_conn os_Open_conn os_CreateTemp_conn
  os_File_Write_conn os_File_Seek_conn os_File_Close_conn os_Remove_conn
  os_MkdirAll_conn os_Create_conn io_Copy_conn
  os_Stat_calls os_Open_calls os_CreateTemp_calls os_File_Write_calls
  os_File_Seek_calls os_File_Close_calls os_Remove_calls os_MkdirAll_calls
  os_Create_calls io_Copy_calls : keeps.

(** *** The calls of the SDK keep the connection; all but the managed
    download keep the local files *)

Section sdk_calls.
Variable env : Env.

Lemma request_conn {A} call (answer : World -> result A) :
  keeps same_conn (s3api.request call answer).
Proof. intros s. reflexivity. Qed.

Lemma request_files {A} call (answer : World -> result A) :
  keeps same_files (s3api.request call answer).
Proof. intros s. split; reflexivity. Qed.

Lemma LoadDefaultConfig_conn optFns :
  keeps same_conn (s3api.LoadDefaultConfig env optFns).
Proof. unfold s3api.LoadDefaultConfig. keeps_auto. Qed.
Lemma HeadBucket_conn cl input : keeps same_conn (s3api.HeadBucket env cl input).
Proof. apply request_conn. Qed.
Lemma CreateBucket_conn cl input :
  keeps same_conn (s3api.CreateBucket env cl input).
Proof. apply request_conn. Qed.
Lemma PutObject_conn cl input : keeps same_conn (s3api.PutObject env cl input).
Proof. unfold s3api.PutObject. keeps_auto. apply request_conn. Qed.
Lemma GetObject_conn cl input : keeps same_conn (s3api.GetObject env cl input).
Proof. unfold s3api.GetObject. keeps_auto. apply request_conn. Qed.
Lemma Body_Close_conn out : keeps same_conn (s3api.Body_Close out).
Proof. unfold s3api.Body_Close. keeps_auto. Qed.
Lemma DeleteObject_conn cl input :
  keeps same_conn (s3api.DeleteObject env cl input).
Proof. apply request_conn. Qed.
Lemma Download_conn cl f input : keeps same_conn (s3api.Download env cl f input).
Proof. unfold s3api.Download. keeps_auto; apply request_conn. Qed.
Lemma PresignGetObject_conn cl input exp :
  keeps same_conn (s3api.PresignGetObject env cl input exp).
Proof. unfold s3api.PresignGetObject. keeps_auto. Qed.

Lemma PutObject_files cl input : keeps same_files (s3api.PutObject env cl input).
Proof. unfold s3api.PutObject. keeps_run. Qed.
Lemma GetObject_files cl input : keeps same_files (s3api.GetObject env cl input).
Proof. unfold s3api.GetObject. keeps_run. Qed.
Lemma Body_Close_files out : keeps same_files (s3api.Body_Close out).
Proof. unfold s3api.Body_Close. keeps_run. Qed.
Lemma DeleteObject_files cl input :
  keeps same_files (s3api.DeleteObject env cl input).
Proof. apply request_files. Qed.
Lemma PresignGetObject_files cl input exp :
  keeps same_files (s3api.PresignGetObject env cl input exp).
Proof. unfold s3api.PresignGetObject. keeps_run. Qed.

Lemma Body_Close_calls out : keeps same_calls (s3api.Body_Close out).
Proof. unfold s3api.Body_Close. keeps_run. Qed.
Lemma PresignGetObject_calls cl input exp :
  keeps same_calls (s3api.PresignGetObject env cl input exp).
Proof. unfold s3api.PresignGetObject. keeps_run. Qed.

End sdk_calls.

#[export] Hint Resolve request_conn LoadDefaultConfig_conn HeadBucket_conn
  CreateBucket_conn PutObject_conn GetObject_conn Body_Close_conn
  DeleteObject_conn Download_conn PresignGetObject_conn
  request_files PutObject_files GetObject_files Body_Close_files
  DeleteObject_files PresignGetObject_files
  Body_Close_calls PresignGetObject_calls : keeps.

(** ** Frame: the data operations and [Health] keep the connection *)

Section frame.
Variable env : Env.

Lemma Upload_conn original opt : keeps same_conn (Upload env original opt).
Proof. unfold Upload. keeps_auto. Qed.
Lemma Fetch_conn file opt : keeps same_conn (Fetch env file opt).
Proof. unfold Fetch. keeps_auto. Qed.
Lemma Download_op_conn file opt : keeps same_conn (Download env file opt).
Proof. unfold Download. keeps_auto. Qed.
Lemma Remove_conn file opt : keeps same_conn (Remove env file opt).
Proof. unfold Remove. keeps_auto. Qed.
Lemma Browse_conn file opt : keeps same_conn (Browse env file opt).
Proof. unfold Browse. keeps_auto. Qed.
Lemma Health_conn : keeps same_conn Health.
Proof. unfold Health. keeps_auto. Qed.

Lemma run_conn op : keeps same_conn (run env op).
Proof.
  destruct op; unfold run; keeps_auto;
    auto using Upload_conn, Fetch_conn, Download_op_conn, Remove_conn,
      Browse_conn.
Qed.

End frame.

(** ** Life cycle *)

#[local] Instance same_setting_preorder : PreOrder same_setting.
Proof.
  split; [intros s; split; reflexivity | ].
  intros s1 s2 s3 [H1 H2] [H3 H4]. split; congruence.
Qed.

Lemma keeps_weaken {A} (R R' : relation State) (m : M A) :
  (forall s s', R s s' -> R' s s') -> keeps R m -> keeps R' m.
Proof. intros HR Hm s. apply HR, Hm. Qed.

Lemma same_conn_setting s s' : same_conn s s' -> same_setting s s'.
Proof. unfold same_conn, same_setting. intros ->. split; reflexivity. Qed.

Lemma assign_client_setting cl : keeps same_setting (assign_client cl).
Proof. intros s. unfold assign_client, same_setting. simpl. auto. Qed.

Lemma Open_setting (env : Env) : keeps same_setting (Open env).
Proof.
  unfold Open. keeps_auto;
    first [ apply assign_client_setting
          | apply (keeps_weaken same_conn);
            [apply same_conn_setting | auto with keeps] ].
Qed.

(** C10. The data operations and [Health] leave every field of the
    connection as it is. [Close] always succeeds, resets the client and
    nothing else, and a second [Close] finds nothing left to do. [Open]
    assigns the client and leaves the instance and the settings alone. *)
Theorem connection_frame (env : Env) (s : State) :
  (forall op, conn (run env op s).2 = conn s)
  /\ Health s = (Ok {| storage.Workload :=
                         match client (conn s) with None => 1 | Some _ => 0 end |},
                 s)
  /\ Close s = (Ok tt, {| conn := set_client None (conn s); world := world s |})
  /\ Close (Close s).2 = Close s
  /\ Health (Close s).2 = (Ok {| storage.Workload := 1 |}, (Close s).2)
  /\ instance (conn (Open env s).2) = instance (conn s)
  /\ setting (conn (Open env s).2) = setting (conn s).
Proof.
  split; [intros op; apply (run_conn env op s) | ].
  split; [unfold Health; unfold_M; destruct (client (conn s)); reflexivity | ].
  split; [reflexivity | ].
  split; [reflexivity | ].
  split; [reflexivity | ].
  apply (Open_setting env s).
Qed.

(** ** Readiness *)

(** C1, as the code has it. A data operation on a connection that holds no
    client fails with the not-ready error and changes nothing: it sends no
    request and touches no local file. The connection holds no client when
    it comes from [Connect] and after [Close]. Conversely an operation that
    does anything else found a client. *)
Theorem not_ready_without_client (env : Env) (op : DataOp) (s : State) :
  let not_ready := errors_New "s3 client not ready" in
  error_kind not_ready = NotReadyError
  /\ (client (conn s) = None -> run env op s = (Err not_ready, s))
  /\ (forall d inst c,
        Connect d inst = Ok c ->
        run env op {| conn := c; world := world s |}
          = (Err not_ready, {| conn := c; world := world s |}))
  /\ run env op (Close s).2 = (Err not_ready, (Close s).2)
  /\ (run env op s <> (Err not_ready, s) -> exists cl, client (conn s) = Some cl).
Proof.
  intros not_ready.
  assert (Hnone : forall s0, client (conn s0) = None ->
                             run env op s0 = (Err not_ready, s0)).
  { intros s0 Hc.
    destruct op; unfold run, Upload, Fetch, Download, Remove, Browse;
      unfold_M; rewrite Hc; reflexivity. }
  split; [reflexivity | ].
  split; [apply Hnone | ].
  split.
  { intros d inst c Hc. apply Hnone. unfold Connect in Hc.
    injection Hc as <-. reflexivity. }
  split; [apply Hnone; reflexivity | ].
  intros Hrun. destruct (client (conn s)) as [cl | ] eqn:Hc; [eauto | ].
  exfalso. apply Hrun, Hnone, Hc.
Qed.

(** A [Remove] on a connection fresh from [Connect]. *)
Lemma not_ready_without_client_witness :
  run env_ok (OpRemove a_file storage.RemoveOption.Build_t) state0 =
    (Err (errors_New "s3 client not ready"), state0).
Proof.
  exact (proj1 (proj2 (not_ready_without_client env_ok
                         (OpRemove a_file storage.RemoveOption.Build_t) state0))
           eq_refl).
Defined.

(** C1, as the specification words it, fails. An [Open] that builds the client and
    then can neither find nor create the bucket returns its error with the
    client assigned: no [Open] has succeeded, and the next [Remove] passes
    the readiness check and sends its request. *)
Lemma ready_after_failed_Open :
  let opened := Open env_no_bucket state0 in
  let removed := Remove env_no_bucket a_file storage.RemoveOption.Build_t opened.2 in
  opened.1 = Err (sdk_error "AccessDenied")
  /\ client (conn opened.2) <> None
  /\ removed.1 = Ok tt
  /\ removed.1 <> Err (errors_New "s3 client not ready")
  /\ exists cl input,
       calls (world removed.2)
         = (calls (world opened.2) ++ [CallDeleteObject cl input])%list.
Proof.
  cbv zeta.
  split; [reflexivity | ].
  split; [discriminate | ].
  split; [reflexivity | ].
  split; [discriminate | ].
  eexists _, _. reflexivity.
Qed.

(** ** Running a computation step by step *)

Lemma bind_run {A B} (m : M A) (f : A -> M B) (s : State) :
  (m ≫= f) s =
  match m s with
  | (Ok a, s') => f a s'
  | (Err e, s') => (Err e, s')
  end.
Proof. reflexivity. Qed.

Lemma bind_this {B} (f : s3Connection -> M B) (s : State) :
  (this ≫= f) s = f (conn s) s.
Proof. reflexivity. Qed.

Lemma bind_get_world {B} (f : World -> M B) (s : State) :
  (get_world ≫= f) s = f (world s) s.
Proof. reflexivity. Qed.

Lemma bind_put_world {B} (w : World) (f : unit -> M B) (s : State) :
  (put_world w ≫= f) s = f tt {| conn := conn s; world := w |}.
Proof. reflexivity. Qed.

Lemma mret_run {A} (a : A) (s : State) : (mret a : M A) s = (Ok a, s).
Proof. reflexivity. Qed.

Lemma GetObject_calls (env : Env) cl input (s : State) :
  calls (world (s3api.GetObject env cl input s).2)
  = (calls (world s) ++ [CallGetObject cl input])%list.
Proof.
  unfold s3api.GetObject. unfold_M. simpl.
  destruct (GetObject_out env (world s) cl input); reflexivity.
Qed.

(** ** Fetch: the request *)

(** C9. A [Fetch] on a ready connection sends one request, a [GetObject]
    for the object path of the file. Its range is "bytes=start-end" when
    the end is set, "bytes=start-" when only the start is set, and absent
    when neither is; an option is set when it is greater than zero, so a
    start of 0 with no end asks for no range. *)
Theorem Fetch_range (env : Env) (s : State) (cl : s3.Client)
    (file : storage.File.t) (opt : storage.FetchOption.t) :
  client (conn s) = Some cl ->
  let start := storage.FetchOption.Start opt in
  let end_ := storage.FetchOption.End_ opt in
  exists input,
    calls (world (Fetch env file opt s).2)
      = (calls (world s) ++ [CallGetObject cl input])%list
    /\ s3.GetObjectInput.Bucket input = Bucket (setting (conn s))
    /\ s3.GetObjectInput.Key input = objectPath file
    /\ ((0 < end_)%Z ->
        s3.GetObjectInput.Range input =
          Some ("bytes=" ++ fmt.Sprintf_d start ++ "-" ++ fmt.Sprintf_d end_))
    /\ ((end_ <= 0)%Z -> (0 < start)%Z ->
        s3.GetObjectInput.Range input =
          Some ("bytes=" ++ fmt.Sprintf_d start ++ "-"))
    /\ ((end_ <= 0)%Z -> (start <= 0)%Z ->
        s3.GetObjectInput.Range input = None).
Proof.
  intros Hc start end_. exists (getObjectInput (conn s) file opt).
  split.
  - unfold Fetch. rewrite bind_this, Hc, bind_run.
    pose proof (GetObject_calls env cl (getObjectInput (conn s) file opt) s) as Hg.
    destruct (s3api.GetObject env cl _ s) as [[out | e] s1]; [ | exact Hg].
    simpl in Hg. rewrite <- Hg.
    match goal with
    | |- context [defer ?d ?m s1] =>
        assert (Hrest : keeps same_calls (defer d m)) by keeps_auto
    end.
    apply Hrest.
  - unfold getObjectInput. fold start end_. cbn [s3.GetObjectInput.Bucket
      s3.GetObjectInput.Key s3.GetObjectInput.Range].
    split; [reflexivity | ]. split; [reflexivity | ].
    split; [ | split].
    + intros He. apply Z.ltb_lt in He. rewrite He, orb_true_r. reflexivity.
    + intros He Hs. apply Z.ltb_lt in Hs. apply Z.ltb_ge in He.
      rewrite Hs, He. reflexivity.
    + intros He Hs. apply Z.ltb_ge in Hs. apply Z.ltb_ge in He.
      rewrite Hs, He. reflexivity.
Qed.

(** A start of 0 with an end of 9 asks for "bytes=0-9". *)
Lemma Fetch_range_witness :
  exists input,
    calls (world (Fetch env_ok a_file
                    {| storage.FetchOption.Start := 0;
                       storage.FetchOption.End_ := 9 |} ready0).2)
      = [CallGetObject a_client input]
    /\ s3.GetObjectInput.Range input = Some "bytes=0-9".
Proof.
  destruct (Fetch_range env_ok ready0 a_client a_file
              {| storage.FetchOption.Start := 0;
                 storage.FetchOption.End_ := 9 |} eq_refl)
    as (input & Hcalls & _ & _ & Hend & _).
  exists input. split; [exact Hcalls | apply Hend; reflexivity].
Defined.

(** The cases of the range, run: a start of 0 alone sends no range. *)
Example Fetch_range_examples :
  let range start end_ :=
    s3.GetObjectInput.Range
      (getObjectInput (connected ∅) a_file
         {| storage.FetchOption.Start := start;
            storage.FetchOption.End_ := end_ |}) in
  range 0%Z 0%Z = None
  /\ range 5%Z 0%Z = Some "bytes=5-"
  /\ range 0%Z 9%Z = Some "bytes=0-9"
  /\ range 5%Z 9%Z = Some "bytes=5-9".
Proof. repeat split; vm_compute; reflexivity. Qed.

(** ** Upload: the tagging string *)

Lemma sort_Strings_sorted (l : list string) : Sorted String.le (sort.Strings l).
Proof. apply Sorted_merge_sort; apply _. Qed.

Lemma sort_Strings_perm (l : list string) : sort.Strings l ≡ₚ l.
Proof. apply merge_sort_Permutation. Qed.

(** Sorting forgets the order the keys came in. *)
Lemma sort_Strings_order (l1 l2 : list string) :
  l1 ≡ₚ l2 -> sort.Strings l1 = sort.Strings l2.
Proof.
  intros Hp. apply (Sorted_unique String.le); try apply sort_Strings_sorted.
  rewrite !sort_Strings_perm. exact Hp.
Qed.

Lemma tagging_canonical (order : list string -> list string)
    (tags : gmap string any) :
  (forall l, order l ≡ₚ l) -> tags <> ∅ ->
  tagging order tags = Some (canonical_tagging tags).
Proof.
  intros Hp Hne. unfold tagging, canonical_tagging.
  assert (Hsize : (0 <? size tags)%nat = true).
  { apply Nat.ltb_lt. destruct (decide (size tags = 0%nat)) as [H0 | ]; [ | lia].
    apply map_size_empty_iff in H0. contradiction. }
  rewrite Hsize. f_equal. unfold encode_tag.
  rewrite (sort_Strings_order _ _ (Hp _)). reflexivity.
Qed.

Lemma PutObject_calls (env : Env) cl input data (s : State) :
  s3api.read_all (world s) (s3.PutObjectInput.Body input) = Some data ->
  calls (world (s3api.PutObject env cl input s).2)
  = (calls (world s) ++ [CallPutObject cl input data])%list.
Proof.
  intros Hr. unfold s3api.PutObject. rewrite bind_get_world, Hr. reflexivity.
Qed.

(** What [Upload] sends once its checks have passed: one [PutObject], with
    the input built from the options and the bytes of the local file. *)
Lemma Upload_sends (env : Env) (s : State) cl original opt data :
  client (conn s) = Some cl ->
  fs (world s) !! original = Some (file_node data) ->
  storage.UploadOption.Key opt <> "" ->
  os_fault env (world s) (call_Open original) = None ->
  exists key f,
    calls (world (Upload env original opt s).2)
    = (calls (world s)
         ++ [CallPutObject cl
               (putObjectInput (range_order env) (conn s) key f opt) data])%list.
Proof.
  intros Hc Hfs Hkey Hfault. apply nonempty_true in Hkey.
  unfold Upload. rewrite bind_this, Hc, bind_run.
  unfold os.Stat at 1. rewrite bind_get_world, Hfs.
  cbn [mret M_ret IsDir]. rewrite Hkey. cbn [negb].
  rewrite bind_run. unfold os.Open at 1. rewrite bind_get_world, Hfault, Hfs.
  unfold open_new. cbn -[fresh putObjectInput objectPath path.Ext].
  rewrite bind_put_world, mret_run.
  eexists _, (fresh (dom (files (world s)))).
  unfold defer.
  match goal with
  | |- context [(s3api.PutObject env cl ?i ≫= ?k) ?s1] =>
      pose proof (PutObject_calls env cl i data s1) as Hp;
      rewrite (bind_run (s3api.PutObject env cl i) k s1)
  end.
  cbn -[fresh putObjectInput objectPath path.Ext] in Hp.
  unfold s3api.read_all in Hp at 1.
  cbn -[fresh putObjectInput objectPath path.Ext] in Hp.
  rewrite lookup_insert_eq in Hp. cbn [Name offset] in Hp.
  rewrite Hfs in Hp. specialize (Hp eq_refl).
  destruct (s3api.PutObject env cl _ _) as [[[] | e] s2]; simpl in Hp |- *;
    unfold os.File_Close; unfold_M; simpl;
    destruct (files (world s2) !! _); simpl; exact Hp.
Qed.

(** C5. When [Upload] sends its request with a non-empty tag mapping, the
    tagging string of the request is the canonical one: the keys sorted,
    each tag percent-encoded as key=value, the tags joined with "&". The
    order in which the keys of the mapping are visited does not show: two
    environments that visit them in different orders send the same
    string. *)
Theorem Upload_tagging_canonical (env1 env2 : Env) (s : State) (cl : s3.Client)
    (original : string) (opt : storage.UploadOption.t) (data : list byte) :
  client (conn s) = Some cl ->
  fs (world s) !! original = Some (file_node data) ->
  storage.UploadOption.Key opt <> "" ->
  os_fault env1 (world s) (call_Open original) = None ->
  os_fault env2 (world s) (call_Open original) = None ->
  storage.UploadOption.Tags opt <> ∅ ->
  let keys := (map_to_list (storage.UploadOption.Tags opt)).*1 in
  exists input1 input2,
    calls (world (Upload env1 original opt s).2)
      = (calls (world s) ++ [CallPutObject cl input1 data])%list
    /\ calls (world (Upload env2 original opt s).2)
      = (calls (world s) ++ [CallPutObject cl input2 data])%list
    /\ s3.PutObjectInput.Tagging input1
      = Some (canonical_tagging (storage.UploadOption.Tags opt))
    /\ s3.PutObjectInput.Tagging input2 = s3.PutObjectInput.Tagging input1
    /\ Sorted String.le (sort.Strings keys)
    /\ sort.Strings keys ≡ₚ keys.
Proof.
  intros Hc Hfs Hkey Hf1 Hf2 Htags keys.
  destruct (Upload_sends env1 s cl original opt data Hc Hfs Hkey Hf1)
    as (key1 & f1 & H1).
  destruct (Upload_sends env2 s cl original opt data Hc Hfs Hkey Hf2)
    as (key2 & f2 & H2).
  eexists _, _. split; [exact H1 | ]. split; [exact H2 | ].
  cbn [putObjectInput s3.PutObjectInput.Tagging].
  rewrite !tagging_canonical by (try apply range_order_perm; exact Htags).
  split; [reflexivity | ]. split; [reflexivity | ].
  split; [apply sort_Strings_sorted | apply sort_Strings_perm].
Qed.

(** The tags b=2 and a=1, visited in either order, are sent as "a=1&b=2". *)
Lemma Upload_tagging_canonical_witness :
  exists input1 input2,
    calls (world (Upload env_ok "/data/report.txt" tagged_upload ready0).2)
      = [CallPutObject a_client input1 [x61; x62; x63]]
    /\ calls (world (Upload env_reversed "/data/report.txt" tagged_upload ready0).2)
      = [CallPutObject a_client input2 [x61; x62; x63]]
    /\ s3.PutObjectInput.Tagging input1 = Some "a=1&b=2"
    /\ s3.PutObjectInput.Tagging input2 = s3.PutObjectInput.Tagging input1.
Proof.
  destruct (Upload_tagging_canonical env_ok env_reversed ready0 a_client
              "/data/report.txt" tagged_upload [x61; x62; x63])
    as (input1 & input2 & H1 & H2 & H3 & H4 & _);
    [reflexivity | reflexivity | discriminate | reflexivity | reflexivity
    | apply insert_non_empty | ].
  exists input1, input2. split; [exact H1 | ]. split; [exact H2 | ].
  split; [exact H3 | exact H4].
Defined.

(** The example of the specification: the two insertion orders give the
    same mapping, and every visiting order encodes it to "a=1&b=2";
    reserved bytes are percent-encoded. *)
Example tagging_examples :
  let ba : gmap string any := <["b" := any_string "2"]> (<["a" := any_string "1"]> ∅) in
  let ab : gmap string any := <["a" := any_string "1"]> (<["b" := any_string "2"]> ∅) in
  tagging (fun l => l) ba = Some "a=1&b=2"
  /\ tagging reverse ab = Some "a=1&b=2"
  /\ tagging reverse (<["k y" := any_string "a&b"]> (<["n" := any_int 7]> ∅))
     = Some "k+y=a%26b&n=7".
Proof. repeat split; vm_compute; reflexivity. Qed.

(** ** Upload: the input checks *)

(** C6, as the code has it. On a ready connection [Upload] fails before
    anything is sent or opened: with the error of [os.Stat], a local I/O
    error, when the local path does not exist; with a validation error when
    the path is a directory; with a validation error when the path is a
    regular file and the key of the options is empty. *)
Theorem Upload_input_checks (env : Env) (s : State) (cl : s3.Client)
    (original : string) (opt : storage.UploadOption.t) :
  client (conn s) = Some cl ->
  (fs (world s) !! original = None ->
   Upload env original opt s = (Err (PathError "stat" original ENOENT), s)
   /\ error_kind (PathError "stat" original ENOENT) = LocalIOError)
  /\ (fs (world s) !! original = Some dir_node ->
      Upload env original opt s
        = (Err (errors_New "directory upload not supported"), s)
      /\ error_kind (errors_New "directory upload not supported")
         = ValidationError)
  /\ (forall data,
        fs (world s) !! original = Some (file_node data) ->
        storage.UploadOption.Key opt = "" ->
        Upload env original opt s = (Err (errors_New "missing upload key"), s)
        /\ error_kind (errors_New "missing upload key") = ValidationError).
Proof.
  intros Hc.
  split; [ | split].
  - intros Hfs. split; [ | reflexivity].
    unfold Upload. rewrite bind_this, Hc, bind_run.
    unfold os.Stat at 1. rewrite bind_get_world, Hfs. reflexivity.
  - intros Hfs. split; [ | reflexivity].
    unfold Upload. rewrite bind_this, Hc, bind_run.
    unfold os.Stat at 1. rewrite bind_get_world, Hfs. reflexivity.
  - intros data Hfs Hkey. split; [ | reflexivity].
    unfold Upload. rewrite bind_this, Hc, bind_run.
    unfold os.Stat at 1. rewrite bind_get_world, Hfs.
    cbn [mret M_ret IsDir]. rewrite Hkey. reflexivity.
Qed.

(** A directory, a regular file with an empty key, and a missing path. *)
Lemma Upload_input_checks_witness :
  Upload env_ok "/data" tagged_upload ready0
    = (Err (errors_New "directory upload not supported"), ready0)
  /\ Upload env_ok "/data/report.txt" keyless_upload ready0
    = (Err (errors_New "missing upload key"), ready0)
  /\ Upload env_ok "/nowhere" tagged_upload ready0
    = (Err (PathError "stat" "/nowhere" ENOENT), ready0).
Proof.
  split; [ | split].
  - apply (Upload_input_checks env_ok ready0 a_client "/data" tagged_upload
             eq_refl).
    reflexivity.
  - apply (proj2 (proj2 (Upload_input_checks env_ok ready0 a_client
                           "/data/report.txt" keyless_upload eq_refl))
             [x61; x62; x63]);
      reflexivity.
  - apply (proj1 (Upload_input_checks env_ok ready0 a_client "/nowhere"
                    tagged_upload eq_refl)).
    reflexivity.
Defined.

(** C6, as the specification words it, fails. The local path does not exist and the
    key of the options is empty, on a ready connection; the error [Upload]
    returns is the one of [os.Stat], which is not a validation error. *)
Lemma Upload_missing_path_not_validation :
  exists e,
    client (conn ready0) = Some a_client
    /\ fs (world ready0) !! "/nowhere" = None
    /\ storage.UploadOption.Key keyless_upload = ""
    /\ Upload env_ok "/nowhere" keyless_upload ready0 = (Err e, ready0)
    /\ e = PathError "stat" "/nowhere" ENOENT
    /\ error_kind e <> ValidationError.
Proof.
  eexists. split; [reflexivity | ]. split; [reflexivity | ].
  split; [reflexivity | ]. split; [reflexivity | ].
  split; [reflexivity | discriminate].
Qed.

(** ** Download: the checks before any request *)

(** C8. On a ready connection [Download] fails with a validation error
    when the target path is empty. When the target exists as a regular
    file, [Download] returns the target and changes nothing: no request is
    sent, and the local file is as it was. *)
Theorem Download_short_circuit (env : Env) (s : State) (cl : s3.Client)
    (file : storage.File.t) (opt : storage.DownloadOption.t) :
  client (conn s) = Some cl ->
  let target := storage.DownloadOption.Target opt in
  (target = "" ->
   Download env file opt s = (Err (errors_New "invalid target"), s)
   /\ error_kind (errors_New "invalid target") = ValidationError)
  /\ (forall data,
        target <> "" ->
        fs (world s) !! target = Some (file_node data) ->
        Download env file opt s = (Ok target, s)).
Proof.
  intros Hc target. split.
  - intros Ht. split; [ | reflexivity].
    unfold Download. rewrite bind_this, Hc. fold target. rewrite Ht. reflexivity.
  - intros data Hne Hfs. apply nonempty_true in Hne.
    unfold Download. rewrite bind_this, Hc. fold target. rewrite Hne.
    cbn [negb]. cbv zeta. rewrite bind_run. unfold attempt, os.Stat.
    rewrite bind_get_world, Hfs. reflexivity.
Qed.

(** A target that is a regular file already, and an empty target. *)
Lemma Download_short_circuit_witness :
  Download env_ok a_file {| storage.DownloadOption.Target := "/data/report.txt" |}
    ready0
  = (Ok "/data/report.txt", ready0)
  /\ Download env_ok a_file {| storage.DownloadOption.Target := "" |} ready0
     = (Err (errors_New "invalid target"), ready0).
Proof.
  split.
  - apply (proj2 (Download_short_circuit env_ok ready0 a_client a_file
                    {| storage.DownloadOption.Target := "/data/report.txt" |}
                    eq_refl) [x61; x62; x63]);
      [discriminate | reflexivity].
  - apply (proj1 (Download_short_circuit env_ok ready0 a_client a_file
                    {| storage.DownloadOption.Target := "" |} eq_refl)).
    reflexivity.
Defined.

(** ** Fetch: the temporary file *)

Lemma fresh_file (w : World) : files w !! fresh (dom (files w)) = None.
Proof. apply not_elem_of_dom, is_fresh. Qed.

Lemma write_at_new (data : list byte) : write_at 0 data [] = data.
Proof. unfold write_at. simpl. rewrite drop_nil. apply app_nil_r. Qed.



(** * Further properties of the driver *)

(** ** Open *)

Lemma loadOpts_config (st : s3Setting) :
  fold_left (fun o f => f o)
    (if nonempty (AccessKey st) || nonempty (SecretKey st)
        || nonempty (SessionToken st)
     then ([config.WithRegion (Region st)] ++
           [config.WithCredentialsProvider
              (credentials.NewStaticCredentialsProvider
                 (AccessKey st) (SecretKey st) (SessionToken st))])%list
     else [config.WithRegion (Region st)])
    config.no_options
  = config_of st.
Proof.
  unfold config_of.
  destruct (nonempty (AccessKey st) || nonempty (SecretKey st)
            || nonempty (SessionToken st)); reflexivity.
Qed.

Lemma clientOpts_client (cfg : config.LoadOptions) (st : s3Setting) :
  s3.NewFromConfig cfg
    (if nonempty (Endpoint st)
     then ([fun o : s3.Options =>
              {| s3.UsePathStyle := UsePathStyle st;
                 s3.BaseEndpoint := s3.BaseEndpoint o |}] ++
           [fun o : s3.Options =>
              {| s3.UsePathStyle := s3.UsePathStyle o;
                 s3.BaseEndpoint :=
                   Some (if negb (strings.HasPrefix (Endpoint st) "http://")
                            && negb (strings.HasPrefix (Endpoint st) "https://")
                         then ("https://" ++ Endpoint st)%string
                         else Endpoint st) |}])%list
     else [fun o : s3.Options =>
             {| s3.UsePathStyle := UsePathStyle st;
                s3.BaseEndpoint := s3.BaseEndpoint o |}])
  = {| s3.Config := cfg;
       s3.Opts := {| s3.UsePathStyle := UsePathStyle st;
                     s3.BaseEndpoint := endpoint_of st |} |}.
Proof.
  unfold endpoint_of, s3.NewFromConfig.
  destruct (nonempty (Endpoint st)); [ | reflexivity].
  destruct (strings.HasPrefix (Endpoint st) "http://");
    destruct (strings.HasPrefix (Endpoint st) "https://"); reflexivity.
Qed.

(** What [Open] does, step by step. *)
Lemma Open_run (env : Env) (s : State) :
  let st := setting (conn s) in
  let cl := client_of st in
  let head := {| s3.HeadBucketInput.Bucket := Bucket st |} in
  let create := {| s3.CreateBucketInput.Bucket := Bucket st |} in
  let s1 := {| conn := set_client (Some cl) (conn s);
               world := log (CallHeadBucket cl head) (world s) |} in
  Open env s =
  match LoadDefaultConfig_err env (world s) (config_of st) with
  | Some e => (Err e, s)
  | None =>
      match HeadBucket_err env (world s) cl head with
      | None => (Ok tt, s1)
      | Some _ =>
          (s3api.of_err (CreateBucket_err env (world s1) cl create),
           {| conn := conn s1;
              world := log (CallCreateBucket cl create) (world s1) |})
      end
  end.
Proof.
  intros st cl head create s1.
  unfold Open. rewrite bind_this, bind_run.
  unfold s3api.LoadDefaultConfig. rewrite bind_get_world.
  fold st. rewrite loadOpts_config.
  destruct (LoadDefaultConfig_err env (world s) (config_of st)) as [e | ];
    [reflexivity | ].
  rewrite mret_run. rewrite clientOpts_client. fold (client_of st). fold cl.
  unfold_M. unfold s3api.HeadBucket, s3api.CreateBucket, s3api.request. simpl.
  fold head create.
  destruct (HeadBucket_err env (world s) cl head); reflexivity.
Qed.

(** X1. An [Open] whose configuration cannot be loaded returns that error
    and changes nothing: no request is sent, and the client is as it was,
    also one assigned by an earlier [Open]. *)
Theorem Open_config_failure (env : Env) (s : State) (e : error) :
  LoadDefaultConfig_err env (world s) (config_of (setting (conn s))) = Some e ->
  Open env s = (Err e, s).
Proof. intros He. rewrite Open_run. cbv zeta. rewrite He. reflexivity. Qed.

(** A configuration that cannot be loaded, on a connection that is ready. *)
Lemma Open_config_failure_witness :
  Open env_no_config ready0 = (Err (sdk_error "no region"), ready0)
  /\ client (conn ready0) = Some a_client.
Proof.
  split; [ | reflexivity].
  apply (Open_config_failure env_no_config ready0 (sdk_error "no region")).
  reflexivity.
Defined.

(** X2. An [Open] whose configuration loads assigns the client before it
    asks for the bucket, and asks for the bucket of the settings. When the
    probe succeeds it is the only request and [Open] succeeds. When the
    probe fails, one request to create the bucket follows and its answer is
    the result of [Open]. Either way the client stays assigned, [Health]
    reports 0 afterwards, and no local file is touched. *)
Theorem Open_probes_then_creates (env : Env) (s : State) :
  let st := setting (conn s) in
  let cl := client_of st in
  let head := CallHeadBucket cl {| s3.HeadBucketInput.Bucket := Bucket st |} in
  let create :=
    CallCreateBucket cl {| s3.CreateBucketInput.Bucket := Bucket st |} in
  LoadDefaultConfig_err env (world s) (config_of st) = None ->
  conn (Open env s).2 = set_client (Some cl) (conn s)
  /\ Health (Open env s).2 = (Ok {| storage.Workload := 0 |}, (Open env s).2)
  /\ fs (world (Open env s).2) = fs (world s)
  /\ files (world (Open env s).2) = files (world s)
  /\ (HeadBucket_err env (world s) cl
         {| s3.HeadBucketInput.Bucket := Bucket st |} = None ->
       (Open env s).1 = Ok tt
       /\ calls (world (Open env s).2) = (calls (world s) ++ [head])%list)
  /\ (forall e,
         HeadBucket_err env (world s) cl
           {| s3.HeadBucketInput.Bucket := Bucket st |} = Some e ->
         (Open env s).1
           = s3api.of_err
               (CreateBucket_err env (log head (world s)) cl
                  {| s3.CreateBucketInput.Bucket := Bucket st |})
         /\ calls (world (Open env s).2)
            = (calls (world s) ++ [head; create])%list).
Proof.
  intros st cl head create Hload. rewrite Open_run. cbv zeta.
  fold st. rewrite Hload. fold cl.
  destruct (HeadBucket_err env (world s) cl _) as [e | ] eqn:Hhead;
    (split; [reflexivity | ]); (split; [reflexivity | ]);
    (split; [reflexivity | ]); (split; [reflexivity | ]); split.
  - intros [=].
  - intros e' [= <-]. split; [reflexivity | ].
    simpl. rewrite <- app_assoc. reflexivity.
  - intros _. split; reflexivity.
  - intros e' [=].
Qed.

(** A bucket that is missing and can be created: two requests, success. *)
Lemma Open_probes_then_creates_witness :
  (Open env_new_bucket state0).1 = Ok tt
  /\ exists head create,
       calls (world (Open env_new_bucket state0).2)
       = [CallHeadBucket (client_of (setting (conn state0))) head;
          CallCreateBucket (client_of (setting (conn state0))) create].
Proof.
  destruct (Open_probes_then_creates env_new_bucket state0 eq_refl)
    as (_ & _ & _ & _ & _ & Hcreate).
  destruct (Hcreate (sdk_error "NotFound") eq_refl) as [Hr Hc].
  split; [exact Hr | ]. eexists _, _. exact Hc.
Defined.

(** X3. [Open] succeeds exactly when the configuration loads and the bucket
    is found or, failing that, created. *)
Theorem Open_succeeds_iff (env : Env) (s : State) :
  let st := setting (conn s) in
  let cl := client_of st in
  let head := {| s3.HeadBucketInput.Bucket := Bucket st |} in
  let create := {| s3.CreateBucketInput.Bucket := Bucket st |} in
  (Open env s).1 = Ok tt <->
  LoadDefaultConfig_err env (world s) (config_of st) = None
  /\ (HeadBucket_err env (world s) cl head = None
      \/ CreateBucket_err env (log (CallHeadBucket cl head) (world s)) cl create
         = None).
Proof.
  intros st cl head create. rewrite Open_run. cbv zeta. fold st cl head create.
  destruct (LoadDefaultConfig_err env (world s) (config_of st)) as [e | ]; simpl.
  { split; [discriminate | intros [[=] _]]. }
  destruct (HeadBucket_err env (world s) cl head) as [e | ]; simpl.
  - destruct (CreateBucket_err env _ cl create) as [e' | ]; simpl.
    + split; [discriminate | intros [_ [[=] | [=]]]].
    + split; auto.
  - split; auto.
Qed.




(** ** Connect: the remaining settings *)

Ltac frame_more_settings :=
  repeat first
    [ rewrite (if_bool_frame SessionToken) by reflexivity
    | rewrite (if_bool_frame Endpoint) by reflexivity
    | rewrite (if_string_frame SessionToken) by reflexivity
    | rewrite (if_string_frame Endpoint) by reflexivity
    | rewrite (if_string_frame UsePathStyle) by reflexivity ].

(** X5. The session token and the endpoint of the settings are the
    "session_token" and "endpoint" settings when these are non-empty strings
    and empty otherwise. Path style is the "force_path_style" setting when
    that is a boolean, also when it is false; otherwise the "path_style"
    setting when that is a boolean; otherwise off. *)
Theorem Connect_other_settings (d : s3Driver) (inst : storage.Instance)
    (c : s3Connection) :
  Connect d inst = Ok c ->
  SessionToken (setting c)
    = default "" (nonempty_string (storage.Setting inst !! "session_token"))
  /\ Endpoint (setting c)
    = default "" (nonempty_string (storage.Setting inst !! "endpoint"))
  /\ UsePathStyle (setting c)
    = match assert_bool (storage.Setting inst !! "force_path_style") with
      | Some forced => forced
      | None =>
          default false (assert_bool (storage.Setting inst !! "path_style"))
      end.
Proof.
  unfold Connect. intros [= <-]. cbn [setting].
  match goal with
  | |- context [if nonempty (Bucket ?s) then _ else _] => set (st := s)
  end.
  assert (Hb : forall {B} (proj : s3Setting -> B),
            (forall v s', proj (set_Bucket v s') = proj s') ->
            proj (if nonempty (Bucket st) then st else set_Bucket "default" st)
            = proj st).
  { intros B proj Hp. destruct (nonempty (Bucket st)); [reflexivity | apply Hp]. }
  rewrite !Hb by reflexivity. subst st. clear Hb.
  split; [ | split].
  - frame_more_settings. rewrite if_string_eq.
    destruct (nonempty_string (storage.Setting inst !! "session_token"));
      simpl; frame_more_settings; reflexivity.
  - frame_more_settings. rewrite if_string_eq.
    destruct (nonempty_string (storage.Setting inst !! "endpoint"));
      simpl; frame_more_settings; reflexivity.
  - unfold if_bool at 1.
    destruct (assert_bool (storage.Setting inst !! "force_path_style"));
      [reflexivity | ].
    unfold if_bool at 1.
    destruct (assert_bool (storage.Setting inst !! "path_style"));
      [reflexivity | ].
    simpl. frame_more_settings. reflexivity.
Qed.

(** Path style forced on over a "path_style" of false, and an endpoint. *)
Lemma Connect_other_settings_witness :
  UsePathStyle (setting (connected minio_settings)) = true
  /\ Endpoint (setting (connected minio_settings)) = "minio.local:9000"
  /\ SessionToken (setting (connected minio_settings)) = "".
Proof.
  destruct (Connect_other_settings Driver (instance_of minio_settings)
              (connected minio_settings) eq_refl) as (Ht & He & Hp).
  split; [exact Hp | ]. split; [exact He | exact Ht].
Defined.

(** ** Upload *)

(** What [Upload] does once its checks have passed and the local file is
    open. *)
Lemma Upload_run (env : Env) (s : State) cl original opt data :
  client (conn s) = Some cl ->
  fs (world s) !! original = Some (file_node data) ->
  storage.UploadOption.Key opt <> "" ->
  os_fault env (world s) (call_Open original) = None ->
  let new :=
    storage.NewFile (instance (conn s)) (storage.UploadOption.Prefix opt)
      (storage.UploadOption.Key opt) (upload_type original)
      (Z.of_nat (length data)) in
  let input :=
    putObjectInput (range_order env) (conn s) (objectPath new)
      (fresh (dom (files (world s)))) opt in
  Upload env original opt s =
  (match PutObject_err env (open_new original (world s)).2 cl input data with
   | Some e => Err e
   | None => Ok new
   end,
   {| conn := conn s; world := log (CallPutObject cl input data) (world s) |}).
Proof.
  intros Hc Hfs Hkey Hfault new input. apply nonempty_true in Hkey.
  destruct s as [c [fs0 files0 bodies0 calls0]]. simpl in *.
  unfold Upload. rewrite bind_this. cbn [conn]. rewrite Hc, bind_run.
  unfold os.Stat at 1. rewrite bind_get_world. cbn [world fs]. rewrite Hfs.
  cbn [mret M_ret IsDir Size]. rewrite Hkey. cbn [negb].
  rewrite bind_run. unfold os.Open at 1. rewrite bind_get_world.
  cbn [world fs]. rewrite Hfault, Hfs.
  unfold open_new. cbn [files fs bodies calls].
  rewrite bind_put_world, mret_run. cbn [conn world].
  fold (upload_type original). fold new. fold input.
  unfold defer. rewrite bind_run.
  unfold s3api.PutObject at 1. rewrite bind_get_world. cbn [world].
  unfold s3api.read_all. cbn [files fs]. subst input.
  cbn [putObjectInput s3.PutObjectInput.Body].
  rewrite lookup_insert_eq. cbn [Name offset]. rewrite Hfs, drop_0.
  unfold s3api.request, s3api.of_err, log. cbn [conn world fs files bodies calls].
  unfold os.File_Close. unfold_M.
  destruct (PutObject_err env _ cl _ data) as [e | ];
    cbn -[fresh putObjectInput objectPath];
    rewrite lookup_insert_eq; cbn -[fresh putObjectInput objectPath];
    rewrite delete_insert_id by apply (fresh_file
      {| fs := fs0; files := files0; bodies := bodies0; calls := calls0 |});
    reflexivity.
Qed.

(** X6. An [Upload] whose checks pass and whose local file opens sends
    exactly one request: a [PutObject] to the bucket of the settings, under
    the object path of the new file, with the bytes of the local file as its
    body. The new file has the prefix and key of the options, the extension
    of the local path as its type and the size of the local file. [Upload]
    returns the new file when the store accepts the request and the error of
    the store, unchanged, when it does not; either way the local file is
    closed again and the local file system is as it was. *)
Theorem Upload_outcome (env : Env) (s : State) (cl : s3.Client)
    (original : string) (opt : storage.UploadOption.t) (data : list byte) :
  client (conn s) = Some cl ->
  fs (world s) !! original = Some (file_node data) ->
  storage.UploadOption.Key opt <> "" ->
  os_fault env (world s) (call_Open original) = None ->
  let new :=
    storage.NewFile (instance (conn s)) (storage.UploadOption.Prefix opt)
      (storage.UploadOption.Key opt) (upload_type original)
      (Z.of_nat (length data)) in
  exists input,
    s3.PutObjectInput.Bucket input = Bucket (setting (conn s))
    /\ s3.PutObjectInput.Key input = objectPath new
    /\ calls (world (Upload env original opt s).2)
       = (calls (world s) ++ [CallPutObject cl input data])%list
    /\ fs (world (Upload env original opt s).2) = fs (world s)
    /\ files (world (Upload env original opt s).2) = files (world s)
    /\ (PutObject_err env (open_new original (world s)).2 cl input data = None ->
        (Upload env original opt s).1 = Ok new)
    /\ (forall e,
          PutObject_err env (open_new original (world s)).2 cl input data
            = Some e ->
          (Upload env original opt s).1 = Err e).
Proof.
  intros Hc Hfs Hkey Hfault new.
  rewrite (Upload_run env s cl original opt data Hc Hfs Hkey Hfault).
  fold new. eexists. split; [ | split; [ | split; [reflexivity | ]]];
    [reflexivity | reflexivity | ].
  split; [reflexivity | ]. split; [reflexivity | ].
  cbn [fst]. split.
  - intros ->. reflexivity.
  - intros e ->. reflexivity.
Qed.

(** An upload the store accepts, and one it refuses. *)
Lemma Upload_outcome_witness :
  (Upload env_ok "/data/report.txt" tagged_upload ready0).1
    = Ok (new_file "docs" "k" "txt" 3)
  /\ (Upload env_put_fails "/data/report.txt" tagged_upload ready0).1
    = Err (sdk_error "AccessDenied")
  /\ files (world (Upload env_put_fails "/data/report.txt" tagged_upload
                     ready0).2) = ∅.
Proof.
  destruct (Upload_outcome env_ok ready0 a_client "/data/report.txt"
              tagged_upload [x61; x62; x63] eq_refl eq_refl)
    as (i1 & _ & _ & _ & _ & _ & Hok & _);
    [discriminate | reflexivity | ].
  destruct (Upload_outcome env_put_fails ready0 a_client "/data/report.txt"
              tagged_upload [x61; x62; x63] eq_refl eq_refl)
    as (i2 & _ & _ & _ & _ & Hfiles & _ & Herr);
    [discriminate | reflexivity | ].
  split; [apply Hok; reflexivity | ].
  split; [apply (Herr (sdk_error "AccessDenied")); reflexivity | exact Hfiles].
Defined.

(** The extension [path.Ext] finds: empty, or a dot followed by bytes that
    are neither dots nor slashes, at the end of the path. *)
Lemma ext_from_spec (p acc : string) :
  (path.ext_from p acc = acc /\ no_dot_slash p = true)
  \/ path.ext_from p acc = ""
  \/ exists stem r,
       path.ext_from p acc = String "." r
       /\ no_dot_slash r = true
       /\ p = stem ++ String "." r.
Proof.
  revert acc. induction p as [ | c r IH]; intros acc; cbn [path.ext_from].
  { left. split; reflexivity. }
  destruct (path.is_slash c) eqn:Hslash.
  { destruct (IH "") as [[-> _] | [-> | (stem & r' & -> & Hr & ->)]]; auto.
    right; right. exists (String c stem), r'. auto. }
  destruct (path.is_dot c) eqn:Hdot.
  { apply Ascii.eqb_eq in Hdot. subst c.
    destruct (IH (String "." r)) as [[-> Hr] | [-> | (stem & r' & -> & Hr & ->)]];
      auto.
    - right; right. exists "", r. auto.
    - right; right. exists (String "." stem), r'. auto. }
  destruct (IH acc) as [[-> Hr] | [-> | (stem & r' & -> & Hr & ->)]]; auto.
  - left. split; [reflexivity | ]. cbn [no_dot_slash]. rewrite Hslash, Hdot, Hr.
    reflexivity.
  - right; right. exists (String c stem), r'. auto.
Qed.

(** X7. The type [Upload] gives the new file holds neither a dot nor a
    slash, and when it is not empty the local path ends with a dot followed
    by it. *)
Theorem upload_type_is_last_extension (original : string) :
  no_dot_slash (upload_type original) = true
  /\ (upload_type original <> "" ->
      exists stem, original = stem ++ "." ++ upload_type original).
Proof.
  unfold upload_type, path.Ext.
  destruct (ext_from_spec original "")
    as [[-> _] | [-> | (stem & r & -> & Hr & Hp)]].
  - split; [reflexivity | intros []; reflexivity].
  - split; [reflexivity | intros []; reflexivity].
  - split; [exact Hr | ]. intros _. exists stem. exact Hp.
Qed.

Lemma upload_type_is_last_extension_witness :
  exists stem, "/backup/site.tar.gz" = stem ++ "." ++ upload_type "/backup/site.tar.gz".
Proof.
  apply (upload_type_is_last_extension "/backup/site.tar.gz"). discriminate.
Defined.

(** A path whose last element has no dot, or ends in a dot, gives no type;
    a dot in a directory name does not count. *)
Example upload_type_examples :
  upload_type "/backup/site.tar.gz" = "gz"
  /\ upload_type "/backup.d/site" = ""
  /\ upload_type "/backup/site." = ""
  /\ upload_type "/backup/.profile" = "profile".
Proof. repeat split; vm_compute; reflexivity. Qed.

(** ** What the operations leave open *)

#[local] Instance same_bodies_preorder : PreOrder same_bodies.
Proof.
  split; [intros s; reflexivity | intros s1 s2 s3; unfold same_bodies; congruence].
Qed.

#[local] Instance same_fs_preorder : PreOrder same_fs.
Proof.
  split; [intros s; reflexivity | intros s1 s2 s3; unfold same_fs; congruence].
Qed.

#[local] Instance same_open_preorder : PreOrder same_open.
Proof.
  split; [intros s; reflexivity | intros s1 s2 s3; unfold same_open; congruence].
Qed.

Section closing.
Variable env : Env.

Lemma os_Stat_bodies name : keeps same_bodies (os.Stat name).
Proof. unfold os.Stat. keeps_auto. Qed.
Lemma os_Open_bodies name : keeps same_bodies (os.Open env name).
Proof. unfold os.Open. keeps_run. Qed.
Lemma os_CreateTemp_bodies pattern : keeps same_bodies (os.CreateTemp env pattern).
Proof. unfold os.CreateTemp. keeps_run. Qed.
Lemma os_File_Write_bodies f data : keeps same_bodies (os.File_Write env f data).
Proof. unfold os.File_Write. keeps_run. Qed.
Lemma os_File_Seek_bodies f off whence :
  keeps same_bodies (os.File_Seek env f off whence).
Proof. unfold os.File_Seek. keeps_run. Qed.
Lemma os_File_Close_bodies f : keeps same_bodies (os.File_Close f).
Proof. unfold os.File_Close. keeps_run. Qed.
Lemma os_Remove_bodies name : keeps same_bodies (os.Remove name).
Proof. unfold os.Remove. keeps_run. Qed.
Lemma os_MkdirAll_bodies name : keeps same_bodies (os.MkdirAll env name).
Proof.
  intros s. unfold os.MkdirAll, same_bodies. unfold_M. cbn -[os.mkdir_all].
  destruct (os.mkdir_all _ _ _ _ _); reflexivity.
Qed.
Lemma os_Create_bodies name : keeps same_bodies (os.Create env name).
Proof. unfold os.Create. keeps_run. Qed.
Lemma io_Copy_bodies dst src : keeps same_bodies (io.Copy env dst src).
Proof. unfold io.Copy. keeps_auto. apply os_File_Write_bodies. Qed.
Lemma request_bodies {A} call (answer : World -> result A) :
  keeps same_bodies (s3api.request call answer).
Proof. intros s. reflexivity. Qed.
Lemma PutObject_bodies cl input : keeps same_bodies (s3api.PutObject env cl input).
Proof. unfold s3api.PutObject. keeps_run. Qed.
Lemma DeleteObject_bodies cl input :
  keeps same_bodies (s3api.DeleteObject env cl input).
Proof. apply request_bodies. Qed.
Lemma Download_bodies cl f input :
  keeps same_bodies (s3api.Download env cl f input).
Proof. unfold s3api.Download. keeps_run. Qed.
Lemma PresignGetObject_bodies cl input exp :
  keeps same_bodies (s3api.PresignGetObject env cl input exp).
Proof. unfold s3api.PresignGetObject. keeps_run. Qed.

(** A response body that is closed by a deferred call leaves no body open,
    as long as the rest of the function opens none. *)
Lemma GetObject_defer_Close {A} cl input (rest : s3.Body -> M A) :
  (forall out, keeps same_bodies (rest out)) ->
  keeps same_bodies
    (s3api.GetObject env cl input ≫=
       fun out => defer (s3api.Body_Close out) (rest out)).
Proof.
  intros Hrest s. rewrite bind_run. unfold s3api.GetObject at 1.
  rewrite bind_run. unfold s3api.request at 1.
  destruct (GetObject_out env (world s) cl input) as [out | e];
    [ | reflexivity].
  rewrite bind_get_world, bind_put_world, mret_run. unfold defer.
  match goal with |- context [rest out ?s1] => specialize (Hrest out s1) end.
  destruct (rest out _) as [r s2]. unfold same_bodies in *. simpl in *.
  rewrite Hrest. reflexivity.
Qed.

Lemma os_Stat_open name : keeps same_open (os.Stat name).
Proof. unfold os.Stat. keeps_auto. Qed.
Lemma os_MkdirAll_open name : keeps same_open (os.MkdirAll env name).
Proof.
  intros s. unfold os.MkdirAll, same_open. unfold_M. cbn -[os.mkdir_all].
  destruct (os.mkdir_all _ _ _ _ _); reflexivity.
Qed.
Lemma request_open {A} call (answer : World -> result A) :
  keeps same_open (s3api.request call answer).
Proof. intros s. reflexivity. Qed.
Lemma PutObject_open cl input : keeps same_open (s3api.PutObject env cl input).
Proof. unfold s3api.PutObject. keeps_run. Qed.
Lemma DeleteObject_open cl input :
  keeps same_open (s3api.DeleteObject env cl input).
Proof. apply request_open. Qed.
Lemma Download_open cl f input : keeps same_open (s3api.Download env cl f input).
Proof. unfold s3api.Download. keeps_run. Qed.
Lemma PresignGetObject_open cl input exp :
  keeps same_open (s3api.PresignGetObject env cl input exp).
Proof. unfold s3api.PresignGetObject. keeps_run. Qed.

(** A file that is opened and closed by a deferred call is not left open,
    as long as the rest of the function leaves the open files alone. *)
Lemma Open_defer_Close {A} name (rest : nat -> M A) :
  (forall f, keeps same_open (rest f)) ->
  keeps same_open
    (os.Open env name ≫= fun f => defer (os.File_Close f) (rest f)).
Proof.
  intros Hrest s. rewrite bind_run. unfold os.Open at 1.
  rewrite bind_get_world.
  destruct (os_fault env (world s) (call_Open name)); [reflexivity | ].
  destruct (fs (world s) !! name); [ | reflexivity].
  unfold open_new. cbn -[fresh]. rewrite bind_put_world, mret_run.
  unfold defer.
  match goal with |- context [rest ?f ?s1] => specialize (Hrest f s1) end.
  destruct (rest _ _) as [r s2]. unfold same_open in *. cbn -[fresh] in *.
  unfold os.File_Close. unfold_M. cbn -[fresh]. rewrite Hrest.
  rewrite lookup_insert_eq. cbn -[fresh].
  apply delete_insert_id, fresh_file.
Qed.

Lemma Create_defer_Close {A} name (rest : nat -> M A) :
  (forall f, keeps same_open (rest f)) ->
  keeps same_open
    (os.Create env name ≫= fun f => defer (os.File_Close f) (rest f)).
Proof.
  intros Hrest s. rewrite bind_run. unfold os.Create at 1.
  rewrite bind_get_world.
  destruct (os_fault env (world s) (call_Create name)); [reflexivity | ].
  assert (Hnew :
    same_open s
      (let '(r, s') :=
         (let '(f, w') :=
            open_new name (set_fs (<[name := file_node []]> (fs (world s)))
                             (world s)) in
          put_world w' ≫= fun _ => mret f) s in
       match r with
       | Ok a => defer (os.File_Close a) (rest a) s'
       | Err e => (Err e, s')
       end).2).
  { unfold open_new. cbn -[fresh]. rewrite bind_put_world, mret_run.
    unfold defer.
    match goal with |- context [rest ?f ?s1] => specialize (Hrest f s1) end.
    destruct (rest _ _) as [r s2]. unfold same_open in *. cbn -[fresh] in *.
    unfold os.File_Close. unfold_M. cbn -[fresh]. rewrite Hrest.
    rewrite lookup_insert_eq. cbn -[fresh].
    apply delete_insert_id, fresh_file. }
  destruct (fs (world s) !! name) as [[ | ] | ];
    destruct (fs (world s) !! path.Dir name) as [[ | ] | ];
    first [reflexivity | exact Hnew].
Qed.

Lemma os_Stat_fs name : keeps same_fs (os.Stat name).
Proof. unfold os.Stat. keeps_auto. Qed.
Lemma os_Open_fs name : keeps same_fs (os.Open env name).
Proof. unfold os.Open. keeps_run. Qed.
Lemma os_File_Close_fs f : keeps same_fs (os.File_Close f).
Proof. unfold os.File_Close. keeps_run. Qed.
Lemma request_fs {A} call (answer : World -> result A) :
  keeps same_fs (s3api.request call answer).
Proof. intros s. reflexivity. Qed.
Lemma PutObject_fs cl input : keeps same_fs (s3api.PutObject env cl input).
Proof. unfold s3api.PutObject. keeps_run. Qed.
Lemma DeleteObject_fs cl input : keeps same_fs (s3api.DeleteObject env cl input).
Proof. apply request_fs. Qed.
Lemma PresignGetObject_fs cl input exp :
  keeps same_fs (s3api.PresignGetObject env cl input exp).
Proof. unfold s3api.PresignGetObject. keeps_run. Qed.

End closing.

#[export] Hint Resolve os_Stat_fs os_Open_fs os_File_Close_fs request_fs
  PutObject_fs DeleteObject_fs PresignGetObject_fs : keeps.

#[export] Hint Resolve os_Stat_bodies os_Open_bodies os_CreateTemp_bodies
  os_File_Write_bodies os_File_Seek_bodies os_File_Close_bodies
  os_Remove_bodies os_MkdirAll_bodies os_Create_bodies io_Copy_bodies
  request_bodies PutObject_bodies DeleteObject_bodies Download_bodies
  PresignGetObject_bodies os_Stat_open os_MkdirAll_open request_open
  PutObject_open DeleteObject_open Download_open PresignGetObject_open : keeps.

Ltac closing_step :=
  first [ apply GetObject_defer_Close
        | apply Open_defer_Close
        | apply Create_defer_Close
        | keeps_step ].

(** X8. The data operations close what they open. Whatever its result, an
    operation leaves as many response bodies open as it found. Every
    operation but [Fetch], which hands its temporary file to the caller,
    leaves the open files as it found them: [Upload] and [Download] close
    their local file on every path. [Upload], [Remove] and [Browse] never
    change the local file system. *)
Theorem operations_close_what_they_open (env : Env) (op : DataOp) (s : State) :
  bodies (world (run env op s).2) = bodies (world s)
  /\ match op with
     | OpFetch _ _ => True
     | _ => files (world (run env op s).2) = files (world s)
     end
  /\ match op with
     | OpFetch _ _ | OpDownload _ _ => True
     | _ => fs (world (run env op s).2) = fs (world s)
     end.
Proof.
  split; [ | split].
  - assert (H : keeps same_bodies (run env op)); [ | exact (H s)].
    destruct op; unfold run, Upload, Fetch, Download, Remove, Browse;
      repeat closing_step.
  - destruct op; try exact I.
    all: match goal with
         | |- files (world (run ?e ?o ?s0).2) = _ =>
             assert (H : keeps same_open (run e o)); [ | exact (H s0)]
         end.
    all: unfold run, Upload, Download, Remove, Browse; repeat closing_step.
  - destruct op; try exact I.
    all: match goal with
         | |- fs (world (run ?e ?o ?s0).2) = _ =>
             assert (H : keeps same_fs (run e o)); [ | exact (H s0)]
         end.
    all: unfold run, Upload, Remove, Browse; repeat keeps_step.
Qed.

(** ** The stream *)

(** What a successful [Fetch] returns and leaves behind. *)
Lemma Fetch_returns (env : Env) (s : State) (object : storage.File.t)
    (opt : storage.FetchOption.t) (t : tempStream) (s' : State) :
  Fetch env object opt s = (Ok t, s') ->
  exists cl out,
    client (conn s) = Some cl
    /\ GetObject_out env (world s) cl (getObjectInput (conn s) object opt)
       = Ok out
    /\ s3.body_err out = None
    /\ file t = fresh (dom (files (world s)))
    /\ fs (world s) !! path_ t = None
    /\ s' = {| conn := conn s;
               world :=
                 {| fs := <[path_ t := file_node (s3.body_data out)]>
                            (fs (world s));
                    files := <[file t := {| Name := path_ t; offset := 0 |}]>
                               (files (world s));
                    bodies := bodies (world s);
                    calls := (calls (world s)
                                ++ [CallGetObject cl
                                      (getObjectInput (conn s) object opt)])%list
                 |} |}.
Proof.
  destruct s as [c [fs0 files0 bodies0 calls0]].
  unfold Fetch, s3api.GetObject, s3api.Body_Close, os.CreateTemp, io.Copy,
    os.File_Write, os.File_Seek, os.File_Close, os.Remove, os.File_Name,
    open_new.
  unfold_M. cbn -[fresh getObjectInput].
  repeat (case_match; simplify_map_eq/=; try done);
    intros; simplify_eq/=.
  rewrite !insert_insert_eq, write_at_new.
  eexists _, _. repeat split; eauto.
Qed.

(** X9. The stream a successful [Fetch] returns holds the bytes of the
    response body. [ReadAt] for [n] bytes from byte [off] gives the bytes
    of the body from [off] on, at most [n], with [io.EOF] when they are
    fewer than [n], and leaves the state alone. [Read] starts at the first
    byte, and a second [Read] continues where the first one stopped. *)
Theorem stream_holds_body (env : Env) (s : State) (object : storage.File.t)
    (opt : storage.FetchOption.t) (t : tempStream) (s' : State) :
  Fetch env object opt s = (Ok t, s') ->
  exists cl out,
    client (conn s) = Some cl
    /\ GetObject_out env (world s) cl (getObjectInput (conn s) object opt)
       = Ok out
    /\ (forall n off,
          (0 <= off)%Z ->
          let got := take n (drop (Z.to_nat off) (s3.body_data out)) in
          tempStream_ReadAt t n off s'
          = (Ok (got, if (length got <? n)%nat then Some io_EOF else None), s'))
    /\ (forall n m,
          (0 < n < length (s3.body_data out))%nat -> (0 < m)%nat ->
          (tempStream_Read t n s').1 = Ok (take n (s3.body_data out))
          /\ (tempStream_Read t m (tempStream_Read t n s').2).1
             = Ok (take m (drop n (s3.body_data out))))
    /\ (forall n,
          (0 < n)%nat -> s3.body_data out = [] ->
          tempStream_Read t n s' = (Err io_EOF, s')).
Proof.
  intros Hfetch.
  destruct (Fetch_returns env s object opt t s' Hfetch)
    as (cl & out & Hc & Hout & _ & _ & _ & ->).
  exists cl, out. split; [exact Hc | ]. split; [exact Hout | ].
  set (body := s3.body_data out).
  split; [ | split].
  - intros n off Hoff got.
    unfold tempStream_ReadAt, File_ReadAt. rewrite bind_get_world.
    cbn [world files fs]. rewrite lookup_insert_eq. cbn [Name].
    apply Z.ltb_ge in Hoff. rewrite Hoff, lookup_insert_eq. reflexivity.
  - intros n m [Hn Hlt] Hm.
    assert (Htake : take n body <> []).
    { intros Hnil. apply (f_equal length) in Hnil.
      rewrite length_take in Hnil. simpl in Hnil. fold body in Hlt. lia. }
    assert (Hdrop : take m (drop n body) <> []).
    { intros Hnil. apply (f_equal length) in Hnil.
      rewrite length_take, length_drop in Hnil. simpl in Hnil.
      fold body in Hlt. lia. }
    unfold tempStream_Read, File_Read. rewrite !bind_get_world.
    cbn [world files fs]. rewrite !lookup_insert_eq. cbn [Name offset drop].
    rewrite drop_0.
    destruct (Nat.eqb_spec n 0) as [-> | _]; [lia | ].
    destruct (take n body) as [ | b got] eqn:Hgot; [contradiction | ].
    rewrite bind_put_world, mret_run. cbn [fst snd world files fs conn].
    split; [reflexivity | ].
    unfold set_files. cbn [files fs]. rewrite !lookup_insert_eq.
    cbn [Name offset].
    destruct (Nat.eqb_spec m 0) as [-> | _]; [lia | ].
    assert (Hlen : length (b :: got) = n).
    { rewrite <- Hgot, length_take. fold body in Hlt. lia. }
    rewrite Hlen. change (0 + n)%nat with n.
    destruct (take m (drop n body)) as [ | b' got'] eqn:Hgot';
      [contradiction | ].
    rewrite bind_put_world, mret_run. reflexivity.
  - intros n Hn Hnil. fold body in Hnil.
    unfold tempStream_Read, File_Read. rewrite bind_get_world.
    cbn [world files fs]. rewrite !lookup_insert_eq. cbn [Name offset].
    rewrite Hnil.
    destruct (Nat.eqb_spec n 0) as [-> | _]; [lia | ].
    rewrite drop_nil, take_nil. reflexivity.
Qed.

(** The two bytes "hi", read at once and byte by byte. *)
Lemma stream_holds_body_witness :
  exists t s',
    Fetch env_ok a_file whole_object ready0 = (Ok t, s')
    /\ tempStream_ReadAt t 5 0 s' = (Ok ([x68; x69], Some io_EOF), s')
    /\ (tempStream_Read t 1 s').1 = Ok [x68]
    /\ (tempStream_Read t 1 (tempStream_Read t 1 s').2).1 = Ok [x69].
Proof.
  eexists _, _. split; [vm_compute; reflexivity | ].
  destruct (stream_holds_body env_ok ready0 a_file whole_object
              {| file := 0; path_ := "/tmp/bamgoo-storage-s3-1" |}
              {| conn := conn ready0;
                 world :=
                   {| fs := <["/tmp/bamgoo-storage-s3-1" := file_node [x68; x69]]>
                              (fs world0);
                      files := <[0%nat := {| Name := "/tmp/bamgoo-storage-s3-1";
                                             offset := 0 |}]> ∅;
                      bodies := 0;
                      calls := [CallGetObject a_client
                                  (getObjectInput (conn ready0) a_file
                                     whole_object)] |} |})
    as (cl & out & Hc & Hout & Hat & Hread & _); [vm_compute; reflexivity | ].
  vm_compute in Hout. injection Hout as <-.
  split; [exact (Hat 5%nat 0%Z ltac:(lia)) | ].
  apply (Hread 1%nat 1%nat); simpl; lia.
Defined.





(** ** Download *)

Section mkdir.
Variable env : Env.

(** [os.MkdirAll] only adds directories: what was there stays, and the path
    asked for is a directory afterwards. *)
Lemma mkdir_all_spec (fuel : nat) (w : World) (name : string)
    (m m' : gmap string node) :
  os.mkdir_all env fuel w name m = inr m' ->
  m' !! name = Some dir_node
  /\ (forall k v, m !! k = Some v -> m' !! k = Some v)
  /\ (forall k, m' !! k = m !! k \/ m' !! k = Some dir_node).
Proof.
  revert name m m'. induction fuel as [ | fuel IH]; intros name m m' Hm.
  - simpl in Hm. destruct (m !! name) as [[ | ] | ] eqn:Hn; simplify_eq.
    split; [exact Hn | ]. split; auto.
  - simpl in Hm. destruct (m !! name) as [[ | ] | ] eqn:Hn; simplify_eq.
    { split; [exact Hn | ]. split; auto. }
    destruct (String.eqb (path.Dir name) name).
    + destruct (os_fault env w (call_Mkdir name)); simplify_eq.
      split; [apply lookup_insert_eq | ]. split.
      * intros k v Hk. destruct (decide (k = name)) as [-> | Hne];
          [congruence | by rewrite lookup_insert_ne].
      * intros k. destruct (decide (k = name)) as [-> | Hne];
          [right; apply lookup_insert_eq | left; by rewrite lookup_insert_ne].
    + destruct (os.mkdir_all env fuel w (path.Dir name) m) as [e | m1] eqn:Hrec;
        [discriminate | ].
      destruct (os_fault env w (call_Mkdir name)); simplify_eq.
      destruct (IH _ _ _ Hrec) as (_ & Hkeep & Honly).
      split; [apply lookup_insert_eq | ]. split.
      * intros k v Hk. destruct (decide (k = name)) as [-> | Hne];
          [congruence | rewrite lookup_insert_ne by done; auto].
      * intros k. destruct (decide (k = name)) as [-> | Hne];
          [right; apply lookup_insert_eq | rewrite lookup_insert_ne by done; auto].
Qed.

Lemma mkdir_all_existing (fuel : nat) (w : World) (name : string)
    (m : gmap string node) :
  m !! name = Some dir_node -> os.mkdir_all env fuel w name m = inr m.
Proof. intros Hn. destruct fuel; simpl; rewrite Hn; reflexivity. Qed.

End mkdir.

(** What [Download] does when the target is absent, its directory is there
    and the target can be created. *)
Lemma Download_run (env : Env) (s : State) cl object opt :
  let target := storage.DownloadOption.Target opt in
  let input :=
    {| s3.GetObjectInput.Bucket := Bucket (setting (conn s));
       s3.GetObjectInput.Key := objectPath object;
       s3.GetObjectInput.Range := None |} in
  let created :=
    (open_new target
       (set_fs (<[target := file_node []]> (fs (world s))) (world s))).2 in
  client (conn s) = Some cl ->
  target <> "" ->
  fs (world s) !! target = None ->
  fs (world s) !! path.Dir target = Some dir_node ->
  os_fault env (world s) (call_Create target) = None ->
  Download env object opt s =
  (match (Download_out env created cl input).2 with
   | Some e => Err e
   | None => Ok target
   end,
   {| conn := conn s;
      world :=
        {| fs := <[target := file_node (Download_out env created cl input).1]>
                   (fs (world s));
           files := files (world s);
           bodies := bodies (world s);
           calls := (calls (world s) ++ [CallDownload cl input])%list |} |}).
Proof.
  intros target input created Hc Hne Hfs Hdir Hfault.
  apply nonempty_true in Hne.
  destruct s as [c [fs0 files0 bodies0 calls0]]. cbn [conn world fs] in *.
  unfold Download. rewrite bind_this. cbn [conn]. rewrite Hc. fold target.
  rewrite Hne. cbn [negb]. cbv zeta. rewrite bind_run.
  unfold attempt, os.Stat at 1. rewrite bind_get_world. cbn [world fs].
  rewrite Hfs. unfold throw at 1.
  rewrite bind_run. unfold os.MkdirAll. rewrite bind_get_world.
  cbn [world fs]. rewrite (mkdir_all_existing env _ _ _ _ Hdir).
  unfold of_errno. rewrite (bind_run (mret fs0)), mret_run.
  unfold put_world at 1. unfold set_fs at 1. cbn [fs files bodies calls conn].
  rewrite bind_run. unfold os.Create at 1. rewrite bind_get_world.
  cbn [world fs]. rewrite Hfault, Hfs, Hdir.
  subst created. unfold open_new, set_fs. cbn [files fs bodies calls snd].
  rewrite bind_put_world, mret_run. cbn [conn world].
  unfold defer. rewrite bind_run.
  unfold s3api.Download at 1. rewrite bind_get_world. cbn [world].
  fold input.
  destruct (Download_out env _ cl input) as [data err] eqn:Hout.
  rewrite bind_run. unfold s3api.request at 1. cbn [world conn log].
  rewrite bind_get_world. unfold log. cbn [world files fs bodies calls].
  rewrite lookup_insert_eq. cbn [Name]. rewrite lookup_insert_eq.
  rewrite bind_put_world. unfold set_fs. cbn [world files fs bodies calls conn].
  rewrite insert_insert_eq, write_at_new.
  unfold os.File_Close. unfold_M.
  destruct err as [e | ]; cbn [world files fs bodies calls conn fst snd];
    rewrite lookup_insert_eq; unfold set_files;
    cbn [world files fs bodies calls conn fst snd];
    rewrite delete_insert_id by apply (fresh_file
      {| fs := <[target := file_node []]> fs0; files := files0;
         bodies := bodies0; calls := calls0 |});
    reflexivity.
Qed.

(** A target that is a regular file already is returned as it is. *)
Lemma Download_existing (env : Env) (s : State) cl object opt data :
  client (conn s) = Some cl ->
  storage.DownloadOption.Target opt <> "" ->
  fs (world s) !! storage.DownloadOption.Target opt = Some (file_node data) ->
  Download env object opt s = (Ok (storage.DownloadOption.Target opt), s).
Proof.
  intros Hc Hne Hfs. apply nonempty_true in Hne.
  unfold Download. rewrite bind_this, Hc, Hne.
  cbn [negb]. cbv zeta. rewrite bind_run. unfold attempt, os.Stat.
  rewrite bind_get_world, Hfs. reflexivity.
Qed.

(** X12. A [Download] to a target that does not exist yet, in a directory
    that does, creates the target and sends exactly one request, a managed
    download of the object path from the bucket of the settings. The target
    then holds the bytes received, the file is closed again and nothing
    else in the local file system changes. [Download] returns the target
    when the download succeeds and the error of the download, unchanged,
    when it fails. *)
Theorem Download_outcome (env : Env) (s : State) (cl : s3.Client)
    (object : storage.File.t) (opt : storage.DownloadOption.t) :
  let target := storage.DownloadOption.Target opt in
  let input :=
    {| s3.GetObjectInput.Bucket := Bucket (setting (conn s));
       s3.GetObjectInput.Key := objectPath object;
       s3.GetObjectInput.Range := None |} in
  let created :=
    (open_new target
       (set_fs (<[target := file_node []]> (fs (world s))) (world s))).2 in
  client (conn s) = Some cl ->
  target <> "" ->
  fs (world s) !! target = None ->
  fs (world s) !! path.Dir target = Some dir_node ->
  os_fault env (world s) (call_Create target) = None ->
  calls (world (Download env object opt s).2)
    = (calls (world s) ++ [CallDownload cl input])%list
  /\ fs (world (Download env object opt s).2)
     = <[target := file_node (Download_out env created cl input).1]>
         (fs (world s))
  /\ files (world (Download env object opt s).2) = files (world s)
  /\ ((Download_out env created cl input).2 = None ->
      (Download env object opt s).1 = Ok target)
  /\ (forall e,
        (Download_out env created cl input).2 = Some e ->
        (Download env object opt s).1 = Err e).
Proof.
  intros target input created Hc Hne Hfs Hdir Hfault.
  rewrite (Download_run env s cl object opt Hc Hne Hfs Hdir Hfault).
  fold target input created. cbn [fst snd world calls fs files].
  split; [reflexivity | ]. split; [reflexivity | ]. split; [reflexivity | ].
  split.
  - intros ->. reflexivity.
  - intros e ->. reflexivity.
Qed.

Lemma Download_outcome_witness :
  (Download env_ok a_file to_copy ready0).1 = Ok "/data/copy.bin"
  /\ fs (world (Download env_ok a_file to_copy ready0).2)
     = <["/data/copy.bin" := file_node [x68; x69]]> (fs world0)
  /\ files (world (Download env_ok a_file to_copy ready0).2) = ∅.
Proof.
  destruct (Download_outcome env_ok ready0 a_client a_file to_copy eq_refl)
    as (_ & Hfs & Hfiles & Hok & _);
    [discriminate | reflexivity | reflexivity | reflexivity | ].
  split; [apply Hok; reflexivity | ]. split; [exact Hfs | exact Hfiles].
Defined.

(** X13. A [Download] that fails while the object is being transferred
    leaves the target behind, holding the bytes received so far. A second
    [Download] to the same target, in whatever environment, finds that
    file, sends no request and returns the target as if it were complete. *)
Theorem failed_Download_is_trusted (env env' : Env) (s : State)
    (cl : s3.Client) (object : storage.File.t)
    (opt : storage.DownloadOption.t) (e : error) :
  let target := storage.DownloadOption.Target opt in
  let input :=
    {| s3.GetObjectInput.Bucket := Bucket (setting (conn s));
       s3.GetObjectInput.Key := objectPath object;
       s3.GetObjectInput.Range := None |} in
  let created :=
    (open_new target
       (set_fs (<[target := file_node []]> (fs (world s))) (world s))).2 in
  client (conn s) = Some cl ->
  target <> "" ->
  fs (world s) !! target = None ->
  fs (world s) !! path.Dir target = Some dir_node ->
  os_fault env (world s) (call_Create target) = None ->
  (Download_out env created cl input).2 = Some e ->
  let failed := Download env object opt s in
  failed.1 = Err e
  /\ fs (world failed.2) !! target
     = Some (file_node (Download_out env created cl input).1)
  /\ Download env' object opt failed.2 = (Ok target, failed.2).
Proof.
  intros target input created Hc Hne Hfs Hdir Hfault Herr failed.
  subst failed.
  rewrite (Download_run env s cl object opt Hc Hne Hfs Hdir Hfault).
  fold target input created. rewrite Herr. cbn [fst snd world fs].
  split; [reflexivity | ]. split; [apply lookup_insert_eq | ].
  apply (Download_existing env' _ cl object opt
           (Download_out env created cl input).1);
    [exact Hc | exact Hne | apply lookup_insert_eq].
Qed.

(** A download that breaks after one byte, and the retry that trusts it. *)
Lemma failed_Download_is_trusted_witness :
  (Download env_download_fails a_file to_copy ready0).1
    = Err (sdk_error "connection reset")
  /\ fs (world (Download env_download_fails a_file to_copy ready0).2)
       !! "/data/copy.bin" = Some (file_node [x68])
  /\ Download env_ok a_file to_copy
       (Download env_download_fails a_file to_copy ready0).2
     = (Ok "/data/copy.bin",
        (Download env_download_fails a_file to_copy ready0).2).
Proof.
  apply (failed_Download_is_trusted env_download_fails env_ok ready0 a_client
           a_file to_copy (sdk_error "connection reset"));
    [reflexivity | discriminate | reflexivity | reflexivity | reflexivity
    | reflexivity].
Defined.

Lemma bind_throw {A B} (e : error) (f : A -> M B) (s : State) :
  (throw e ≫= f) s = (Err e, s).
Proof. reflexivity. Qed.

(** X14. A [Download] whose target is a directory fails and sends no
    request; the directory is still there afterwards and no file is left
    open. *)
Theorem Download_to_directory_fails (env : Env) (s : State) (cl : s3.Client)
    (object : storage.File.t) (opt : storage.DownloadOption.t) :
  let target := storage.DownloadOption.Target opt in
  client (conn s) = Some cl ->
  target <> "" ->
  fs (world s) !! target = Some dir_node ->
  (exists e, (Download env object opt s).1 = Err e)
  /\ calls (world (Download env object opt s).2) = calls (world s)
  /\ files (world (Download env object opt s).2) = files (world s)
  /\ fs (world (Download env object opt s).2) !! target = Some dir_node.
Proof.
  intros target Hc Hne Hfs. apply nonempty_true in Hne.
  destruct s as [c [fs0 files0 bodies0 calls0]]. cbn [conn world fs] in *.
  assert (Hrun : exists e m',
            Download env object opt
              {| conn := c;
                 world := {| fs := fs0; files := files0; bodies := bodies0;
                             calls := calls0 |} |}
            = (Err e,
               {| conn := c;
                  world := {| fs := m'; files := files0; bodies := bodies0;
                              calls := calls0 |} |})
            /\ m' !! target = Some dir_node).
  { unfold Download. rewrite bind_this. cbn [conn]. rewrite Hc. fold target.
    rewrite Hne. cbn [negb]. cbv zeta. rewrite bind_run.
    unfold attempt, os.Stat at 1. rewrite bind_get_world. cbn [world fs].
    rewrite Hfs. rewrite mret_run. cbn [IsDir negb].
    rewrite bind_run. unfold os.MkdirAll. rewrite bind_get_world.
    cbn [world fs].
    destruct (os.mkdir_all env _ _ (path.Dir target) fs0) as [e | m'] eqn:Hmk.
    { unfold of_errno. rewrite bind_throw. eauto. }
    destruct (mkdir_all_spec env _ _ _ _ _ Hmk) as (_ & Hkeep & _).
    specialize (Hkeep _ _ Hfs).
    unfold of_errno. rewrite (bind_run (mret m')), mret_run.
    unfold put_world at 1. unfold set_fs at 1. cbn [fs files bodies calls conn].
    rewrite bind_run. unfold os.Create at 1. rewrite bind_get_world.
    cbn [world fs].
    destruct (os_fault env _ (call_Create target));
      [unfold throw; eauto | ].
    rewrite Hkeep. unfold throw. eauto. }
  destruct Hrun as (e & m' & -> & Hm'). cbn [fst snd world calls files fs].
  eauto.
Qed.

Lemma Download_to_directory_fails_witness :
  (Download env_ok a_file to_directory ready0).1
    = Err (PathError "open" "/data" EISDIR)
  /\ calls (world (Download env_ok a_file to_directory ready0).2) = [].
Proof.
  destruct (Download_to_directory_fails env_ok ready0 a_client a_file
              to_directory eq_refl) as (_ & Hcalls & _);
    [discriminate | reflexivity | ].
  split; [vm_compute; reflexivity | exact Hcalls].
Defined.

(** X15. A [Download] that returns its target, which did not exist before,
    leaves the target as a regular file in a directory: the directories
    above the target that were missing have been made. Every other path
    that was there before is there as before, one request has been sent and
    no file is left open. *)
Theorem Download_makes_target (env : Env) (s s' : State)
    (object : storage.File.t) (opt : storage.DownloadOption.t) :
  let target := storage.DownloadOption.Target opt in
  fs (world s) !! target = None ->
  Download env object opt s = (Ok target, s') ->
  (exists data, fs (world s') !! target = Some (file_node data))
  /\ fs (world s') !! path.Dir target = Some dir_node
  /\ (forall k v, fs (world s) !! k = Some v -> fs (world s') !! k = Some v)
  /\ (forall k, k <> target ->
        fs (world s') !! k = fs (world s) !! k
        \/ fs (world s') !! k = Some dir_node)
  /\ files (world s') = files (world s)
  /\ exists cl input,
       calls (world s') = (calls (world s) ++ [CallDownload cl input])%list.
Proof.
  intros target Hfs.
  destruct s as [c [fs0 files0 bodies0 calls0]]. cbn [conn world fs] in *.
  unfold Download. rewrite bind_this. cbn [conn].
  destruct (client c) as [cl | ]; [ | discriminate]. fold target.
  destruct (nonempty target); [ | discriminate].
  cbn [negb]. cbv zeta. rewrite bind_run.
  unfold attempt, os.Stat at 1. rewrite bind_get_world. cbn [world fs].
  rewrite Hfs. unfold throw at 1.
  rewrite bind_run. unfold os.MkdirAll. rewrite bind_get_world.
  cbn [world fs].
  destruct (os.mkdir_all env _ _ (path.Dir target) fs0) as [e | m'] eqn:Hmk;
    [unfold of_errno; rewrite bind_throw; discriminate | ].
  destruct (mkdir_all_spec env _ _ _ _ _ Hmk) as (Hdir & Hkeep & Honly).
  unfold of_errno. rewrite (bind_run (mret m')), mret_run.
  unfold put_world at 1. unfold set_fs at 1. cbn [fs files bodies calls conn].
  rewrite bind_run. unfold os.Create at 1. rewrite bind_get_world.
  cbn [world fs].
  destruct (os_fault env _ (call_Create target));
    [unfold throw; discriminate | ].
  destruct (Honly target) as [Hnew | Ht];
    [rewrite Hfs in Hnew | rewrite Ht; unfold throw; discriminate].
  rewrite Hnew, Hdir.
  unfold open_new, set_fs. cbn [files fs bodies calls snd].
  rewrite bind_put_world, mret_run. cbn [conn world].
  unfold defer. rewrite bind_run.
  unfold s3api.Download at 1. rewrite bind_get_world. cbn [world].
  destruct (Download_out env _ cl _) as [data err] eqn:Hout.
  rewrite bind_run. unfold s3api.request at 1. cbn [world conn log].
  rewrite bind_get_world. unfold log. cbn [world files fs bodies calls].
  rewrite lookup_insert_eq. cbn [Name]. rewrite lookup_insert_eq.
  rewrite bind_put_world. unfold set_fs. cbn [world files fs bodies calls conn].
  rewrite insert_insert_eq, write_at_new.
  unfold os.File_Close. unfold_M.
  destruct err as [e | ]; cbn [world files fs bodies calls conn fst snd];
    rewrite lookup_insert_eq; unfold set_files;
    cbn [world files fs bodies calls conn fst snd]; [discriminate | ].
  intros [= <-]. cbn [world files fs bodies calls].
  assert (Hne : path.Dir target <> target).
  { intros Heq. rewrite Heq, Hnew in Hdir. discriminate. }
  split; [exists data; apply lookup_insert_eq | ].
  split; [rewrite lookup_insert_ne by congruence; exact Hdir | ].
  split.
  { intros k v Hk. destruct (decide (k = target)) as [-> | Hk'];
      [congruence | rewrite lookup_insert_ne by congruence; auto]. }
  split.
  { intros k Hk. rewrite lookup_insert_ne by congruence. apply Honly. }
  split.
  { apply delete_insert_id.
    apply (fresh_file {| fs := <[target := file_node []]> m'; files := files0;
                         bodies := bodies0; calls := calls0 |}). }
  eexists _, _. reflexivity.
Qed.

(** A download into directories that do not exist yet. *)
Lemma Download_makes_target_witness :
  exists s',
    Download env_ok a_file to_new_dir ready0 = (Ok "/cache/a/copy.bin", s')
    /\ fs (world s') !! "/cache/a" = Some dir_node
    /\ fs (world s') !! "/data/report.txt" = Some (file_node [x61; x62; x63]).
Proof.
  eexists. split; [vm_compute; reflexivity | ].
  destruct (Download_makes_target env_ok ready0
              (Download env_ok a_file to_new_dir ready0).2 a_file to_new_dir)
    as (_ & Hdir & Hkeep & _); [reflexivity | vm_compute; reflexivity | ].
  split; [exact Hdir | ].
  apply (Hkeep "/data/report.txt"). reflexivity.
Defined.

(** ** Browse and Remove *)

(** X16. [Browse] on a ready connection asks the SDK to presign a
    [GetObject] for the object path in the bucket of the settings and
    returns its answer, the URL or the error, unchanged. The URL is asked to
    be valid for the duration of the options when that is positive and for
    one hour when it is zero or negative. Nothing is sent to the store and
    the state is as before. *)
Theorem Browse_signs_locally (env : Env) (s : State) (cl : s3.Client)
    (object : storage.File.t) (opt : storage.BrowseOption.t) :
  client (conn s) = Some cl ->
  let expires := storage.BrowseOption.Expires opt in
  let input :=
    {| s3.GetObjectInput.Bucket := Bucket (setting (conn s));
       s3.GetObjectInput.Key := objectPath object;
       s3.GetObjectInput.Range := None |} in
  exists valid,
    Browse env object opt s
      = (PresignGetObject_out env (world s) cl input valid, s)
    /\ ((0 < expires)%Z -> valid = expires)
    /\ ((expires <= 0)%Z -> valid = (3600 * 1000000000)%Z).
Proof.
  intros Hc expires input.
  exists (if (expires <=? 0)%Z then time.Hour else expires).
  split; [ | split].
  - unfold Browse. rewrite bind_this, Hc. fold expires input.
    unfold s3api.PresignGetObject. rewrite bind_get_world.
    destruct (PresignGetObject_out env (world s) cl input _); reflexivity.
  - intros Hpos. apply Z.leb_gt in Hpos. rewrite Hpos. reflexivity.
  - intros Hle. apply Z.leb_le in Hle. rewrite Hle. reflexivity.
Qed.

Lemma Browse_signs_locally_witness :
  Browse env_ok a_file {| storage.BrowseOption.Expires := (-5)%Z |} ready0
  = (Ok "https://signed.example/url", ready0).
Proof.
  destruct (Browse_signs_locally env_ok ready0 a_client a_file
              {| storage.BrowseOption.Expires := (-5)%Z |} eq_refl)
    as (valid & Hrun & _ & Hdefault).
  rewrite Hrun. reflexivity.
Defined.

(** What [Fetch] sends on a ready connection. *)
Lemma Fetch_sends (env : Env) (s : State) cl object opt :
  client (conn s) = Some cl ->
  calls (world (Fetch env object opt s).2)
  = (calls (world s) ++ [CallGetObject cl (getObjectInput (conn s) object opt)])%list.
Proof.
  intros Hc. unfold Fetch. rewrite bind_this, Hc, bind_run.
  pose proof (GetObject_calls env cl (getObjectInput (conn s) object opt) s) as Hg.
  destruct (s3api.GetObject env cl _ s) as [[out | e] s1]; [ | exact Hg].
  simpl in Hg. rewrite <- Hg.
  match goal with
  | |- context [defer ?d ?m s1] =>
      assert (Hrest : keeps same_calls (defer d m)) by keeps_auto
  end.
  apply Hrest.
Qed.

(** What [Remove] does on a ready connection. *)
Lemma Remove_run (env : Env) (s : State) cl object opt :
  client (conn s) = Some cl ->
  let input :=
    {| s3.DeleteObjectInput.Bucket := Bucket (setting (conn s));
       s3.DeleteObjectInput.Key := objectPath object |} in
  Remove env object opt s
  = (s3api.of_err (DeleteObject_err env (world s) cl input),
     {| conn := conn s; world := log (CallDeleteObject cl input) (world s) |}).
Proof. intros Hc input. unfold Remove. rewrite bind_this, Hc. reflexivity. Qed.

(** X17. The file an [Upload] returns is addressed by the other operations
    under the bucket and key the upload stored it at: a [Remove] of that
    file sends one [DeleteObject] and a [Fetch] one [GetObject] for the
    bucket and key of the [PutObject], and [Remove] returns the answer of
    the store, the error or none, as it is. *)
Theorem uploaded_file_keeps_its_key (env env' : Env) (s : State)
    (cl : s3.Client) (original : string) (opt : storage.UploadOption.t)
    (data : list byte) (new : storage.File.t) :
  client (conn s) = Some cl ->
  fs (world s) !! original = Some (file_node data) ->
  storage.UploadOption.Key opt <> "" ->
  os_fault env (world s) (call_Open original) = None ->
  (Upload env original opt s).1 = Ok new ->
  let s1 := (Upload env original opt s).2 in
  exists put,
    calls (world s1) = (calls (world s) ++ [CallPutObject cl put data])%list
    /\ (forall ropt,
          let del :=
            {| s3.DeleteObjectInput.Bucket := s3.PutObjectInput.Bucket put;
               s3.DeleteObjectInput.Key := s3.PutObjectInput.Key put |} in
          Remove env' new ropt s1
          = (s3api.of_err (DeleteObject_err env' (world s1) cl del),
             {| conn := conn s1;
                world := log (CallDeleteObject cl del) (world s1) |}))
    /\ (forall fopt,
          exists get,
            calls (world (Fetch env' new fopt s1).2)
              = (calls (world s1) ++ [CallGetObject cl get])%list
            /\ s3.GetObjectInput.Bucket get = s3.PutObjectInput.Bucket put
            /\ s3.GetObjectInput.Key get = s3.PutObjectInput.Key put).
Proof.
  intros Hc Hfs Hkey Hfault. cbv zeta.
  rewrite (Upload_run env s cl original opt data Hc Hfs Hkey Hfault).
  cbn [fst snd].
  destruct (PutObject_err env _ cl _ data); [discriminate | ].
  intros [= <-]. eexists. split; [reflexivity | ]. split.
  - intros ropt. rewrite Remove_run with (cl := cl) by exact Hc. reflexivity.
  - intros fopt. eexists.
    split; [rewrite Fetch_sends with (cl := cl) by exact Hc; reflexivity | ].
    split; reflexivity.
Qed.

Lemma uploaded_file_keeps_its_key_witness :
  exists put del,
    calls (world (Upload env_ok "/data/report.txt" tagged_upload ready0).2)
      = [CallPutObject a_client put [x61; x62; x63]]
    /\ s3.PutObjectInput.Key put = "docs/k.txt"
    /\ calls (world (Remove env_ok (new_file "docs" "k" "txt" 3)
                       storage.RemoveOption.Build_t
                       (Upload env_ok "/data/report.txt" tagged_upload
                          ready0).2).2)
       = [CallPutObject a_client put [x61; x62; x63];
          CallDeleteObject a_client del]
    /\ s3.DeleteObjectInput.Key del = "docs/k.txt".
Proof.
  destruct (uploaded_file_keeps_its_key env_ok env_ok ready0 a_client
              "/data/report.txt" tagged_upload [x61; x62; x63]
              (new_file "docs" "k" "txt" 3) eq_refl eq_refl)
    as (put & Hput & Hdel & _);
    [discriminate | reflexivity | vm_compute; reflexivity | ].
  specialize (Hdel storage.RemoveOption.Build_t). cbv zeta in Hdel.
  exists put, {| s3.DeleteObjectInput.Bucket := s3.PutObjectInput.Bucket put;
                 s3.DeleteObjectInput.Key := s3.PutObjectInput.Key put |}.
  rewrite Hdel. cbn [snd world log calls]. rewrite Hput.
  vm_compute in Hput. injection Hput as <-.
  repeat split; reflexivity.
Defined.

(** ** The object path, again *)

Lemma Clean_nonempty (p : string) : path.Clean p <> "".
Proof.
  unfold path.Clean. destruct p as [ | c r]; [discriminate | ].
  match goal with |- context [match ?o with [] => _ | _ :: _ => _ end] =>
    destruct o as [ | a l] eqn:Hout end; [discriminate | ].
  destruct (rev (a :: l)) as [ | b l'] eqn:Hrev; [ | discriminate].
  apply (f_equal length) in Hrev. rewrite length_rev in Hrev. discriminate.
Qed.

Lemma Join2_empty (a b : string) : path.Join [a; b] = "" <-> a = "" /\ b = "".
Proof.
  unfold path.Join. cbn [fold_left].
  destruct (Nat.eqb_spec (0 + String.length a + String.length b) 0) as [H0 | Hn].
  - split; [intros _ | reflexivity].
    destruct a, b; simpl in H0; try lia. auto.
  - split; [intros HC; by apply Clean_nonempty in HC | ].
    intros [-> ->]. simpl in Hn. lia.
Qed.

(** X18. The object path of a file is empty only for the file whose prefix,
    key and type are all empty: every other file has a key in the store. *)
Theorem objectPath_empty_iff (object : storage.File.t) :
  objectPath object = "" <->
  storage.File.Prefix object = "" /\ storage.File.Key object = ""
  /\ storage.File.Type_ object = "".
Proof.
  unfold objectPath. rewrite Join2_empty.
  destruct (nonempty (storage.File.Type_ object)) eqn:Ht.
  - apply nonempty_true in Ht. split.
    + intros [_ Hname]. destruct (storage.File.Key object); discriminate.
    + intros (_ & _ & Hty). contradiction.
  - apply nonempty_false in Ht. rewrite Ht. tauto.
Qed.

(** ** Fetch: what decides its result *)

(** X19. On a ready connection, when no local call fails and the name
    picked for the temporary file is free, the store decides the result of
    [Fetch]: the error of the request when the store refuses it, with only
    the request logged; the read error of the response body when the body
    breaks; and otherwise a stream on the temporary file of that name. *)
Theorem Fetch_outcome (env : Env) (s : State) (cl : s3.Client)
    (object : storage.File.t) (opt : storage.FetchOption.t) :
  let input := getObjectInput (conn s) object opt in
  let opened :=
    set_bodies (S (bodies (world s))) (log (CallGetObject cl input) (world s)) in
  let name := temp_name env opened "bamgoo-storage-s3-*" in
  client (conn s) = Some cl ->
  (forall w c, os_fault env w c = None) ->
  fs (world s) !! name = None ->
  (forall e,
     GetObject_out env (world s) cl input = Err e ->
     Fetch env object opt s
     = (Err e, {| conn := conn s;
                  world := log (CallGetObject cl input) (world s) |}))
  /\ (forall out e,
        GetObject_out env (world s) cl input = Ok out ->
        s3.body_err out = Some e ->
        (Fetch env object opt s).1 = Err e)
  /\ (forall out,
        GetObject_out env (world s) cl input = Ok out ->
        s3.body_err out = None ->
        (Fetch env object opt s).1
        = Ok {| file := fresh (dom (files (world s))); path_ := name |}).
Proof.
  intros input opened name Hc Hfault Hname.
  unfold Fetch, s3api.GetObject, s3api.Body_Close, os.CreateTemp, io.Copy,
    os.File_Write, os.File_Seek, os.File_Close, os.Remove, os.File_Name,
    open_new.
  unfold_M. cbn -[fresh getObjectInput]. rewrite Hc. fold input.
  split; [ | split].
  - intros e ->. reflexivity.
  - intros out e -> He. cbn -[fresh getObjectInput].
    rewrite Hfault. fold opened. fold name. unfold opened at 1.
    cbn -[fresh getObjectInput]. rewrite Hname.
    repeat first [ rewrite Hfault | rewrite lookup_insert_eq | rewrite He
                 | progress cbn -[fresh getObjectInput] ].
    repeat (case_match; simplify_eq/=; try done); reflexivity.
  - intros out -> He. cbn -[fresh getObjectInput].
    rewrite Hfault. fold opened. fold name. unfold opened at 1.
    cbn -[fresh getObjectInput]. rewrite Hname.
    repeat first [ rewrite Hfault | rewrite lookup_insert_eq | rewrite He
                 | progress cbn -[fresh getObjectInput] ].
    repeat (case_match; simplify_eq/=; try done); reflexivity.
Qed.

Lemma Fetch_outcome_witness :
  (Fetch env_copy_fails a_file whole_object ready0).1
    = Err (sdk_error "connection reset")
  /\ (Fetch env_ok a_file whole_object ready0).1
     = Ok {| file := 0; path_ := "/tmp/bamgoo-storage-s3-1" |}.
Proof.
  split.
  - apply (proj1 (proj2 (Fetch_outcome env_copy_fails ready0 a_client a_file
                           whole_object eq_refl (fun _ _ => eq_refl) eq_refl))
             {| s3.body_data := [x68];
                s3.body_err := Some (sdk_error "connection reset") |});
      reflexivity.
  - apply (proj2 (proj2 (Fetch_outcome env_ok ready0 a_client a_file
                           whole_object eq_refl (fun _ _ => eq_refl) eq_refl))
             {| s3.body_data := [x68; x69]; s3.body_err := None |});
      reflexivity.
Defined.

(** ** The shape of the object path *)

Section clean_shape.

Lemma nadj_cons (a : ascii) (l : list ascii) :
  no_adjacent_slashes (a :: l) = true <->
  (path.is_slash a = true -> head_not_slash l) /\ no_adjacent_slashes l = true.
Proof.
  cbn [no_adjacent_slashes]. destruct l as [ | b t].
  - simpl. tauto.
  - rewrite andb_true_iff, negb_true_iff, andb_false_iff. unfold head_not_slash.
    destruct (path.is_slash a), (path.is_slash b); intuition congruence.
Qed.

Lemma nadj_app_r (l1 l2 : list ascii) :
  no_adjacent_slashes (l1 ++ l2)%list = true -> no_adjacent_slashes l2 = true.
Proof.
  induction l1 as [ | a l1 IH]; [auto | ].
  rewrite <- app_comm_cons. intros H. apply nadj_cons in H. tauto.
Qed.

Lemma nadj_app_noslash (e l : list ascii) :
  Forall (fun a => path.is_slash a = false) e ->
  no_adjacent_slashes l = true ->
  no_adjacent_slashes (e ++ l)%list = true.
Proof.
  induction 1 as [ | a e Ha He IH]; [auto | ]. intros Hl.
  rewrite <- app_comm_cons. apply nadj_cons. split; [congruence | auto].
Qed.

Lemma nadj_snoc (l : list ascii) (a : ascii) :
  no_adjacent_slashes (l ++ [a])%list = true <->
  no_adjacent_slashes l = true
  /\ (path.is_slash a = true -> head_not_slash (rev l)).
Proof.
  induction l as [ | b l IH].
  - simpl. unfold head_not_slash. tauto.
  - rewrite <- app_comm_cons, !nadj_cons, IH. cbn [rev].
    destruct l as [ | c l].
    + simpl. unfold head_not_slash.
      destruct (path.is_slash a), (path.is_slash b); intuition congruence.
    + cbn [rev app head_not_slash].
      assert (Hh : forall x, head_not_slash ((rev l ++ [c]) ++ [x])%list
                             <-> head_not_slash (rev l ++ [c])%list).
      { intros x. destruct (rev l ++ [c])%list eqn:Hr; [ | reflexivity].
        destruct (rev l); discriminate. }
      rewrite Hh. tauto.
Qed.

Lemma nadj_rev (l : list ascii) :
  no_adjacent_slashes (rev l) = true <-> no_adjacent_slashes l = true.
Proof.
  induction l as [ | a l IH]; [reflexivity | ].
  cbn [rev]. rewrite nadj_snoc, nadj_cons, IH, rev_involutive. tauto.
Qed.

Lemma split_elem_noslash (p : string) (e : list ascii) (rest : string) :
  path.split_elem p = (e, rest) ->
  Forall (fun a => path.is_slash a = false) e.
Proof.
  revert e rest. induction p as [ | c r IH]; intros e rest; cbn [path.split_elem].
  - intros [= <- <-]. constructor.
  - destruct (path.is_slash c) eqn:Hc; [intros [= <- <-]; constructor | ].
    destruct (path.split_elem r) as [e' rest'] eqn:Hr. intros [= <- <-].
    constructor; [exact Hc | eapply IH; reflexivity].
Qed.

Lemma split_elem_nonempty (c : ascii) (r : string) (e : list ascii)
    (rest : string) :
  path.is_slash c = false ->
  path.split_elem (String c r) = (e, rest) -> exists e', e = c :: e'.
Proof.
  intros Hc. cbn [path.split_elem]. rewrite Hc.
  destruct (path.split_elem r) as [e' rest']. intros [= <- <-]. eauto.
Qed.

Lemma head_not_slash_rev_noslash (e l : list ascii) :
  e <> [] -> Forall (fun a => path.is_slash a = false) e ->
  head_not_slash (rev e ++ l)%list.
Proof.
  intros Hne He. apply Forall_rev in He.
  destruct (rev e) as [ | a t] eqn:Hr.
  - apply (f_equal (@rev ascii)) in Hr. rewrite rev_involutive in Hr.
    contradiction.
  - simpl. by inversion He.
Qed.

(** Backtracking over the last element keeps the invariant. *)
Lemma backtrack_inv (rooted : bool) (out : list ascii) (dotdot : nat) :
  clean_inv rooted out dotdot -> (dotdot < length out)%nat ->
  clean_inv rooted (path.backtrack out dotdot) dotdot.
Proof.
  intros (Hadj & rest & pre & -> & Hlen & Hpre & Hrest) Hlt. subst dotdot.
  assert (Hne : rest <> []).
  { intros ->. simpl in Hlt. lia. }
  clear Hlt Hrest.
  induction rest as [ | c r IH]; [contradiction | ]. clear Hne.
  rewrite <- app_comm_cons in *. cbn [path.backtrack].
  apply nadj_cons in Hadj as [Hc Hadj].
  destruct r as [ | c' r'].
  - cbn [app]. rewrite Nat.ltb_irrefl. cbn [andb].
    split; [exact Hadj | ]. exists [], pre. repeat split; auto.
  - assert (Hlt : (length pre <? length ((c' :: r') ++ pre)%list)%nat = true).
    { apply Nat.ltb_lt. rewrite length_app. simpl. lia. }
    rewrite Hlt. cbn [andb].
    destruct (path.is_slash c) eqn:Hsl; cbn [negb].
    + split; [exact Hadj | ]. exists (c' :: r'), pre.
      repeat split; auto; exact (Hc eq_refl).
    + apply IH; [exact Hadj | discriminate].
Qed.

(** The loop of [path.Clean] keeps the invariant. *)
Lemma clean_loop_inv (fuel : nat) (rooted : bool) (p : string)
    (out : list ascii) (dotdot : nat) :
  clean_inv rooted out dotdot ->
  exists dotdot', clean_inv rooted (path.clean_loop fuel rooted p out dotdot) dotdot'.
Proof.
  revert p out dotdot. induction fuel as [ | fuel IH]; intros p out dotdot Hinv;
    cbn [path.clean_loop]; [eauto | ].
  destruct p as [ | c r]; [eauto | ].
  destruct (path.is_slash c) eqn:Hslash; [apply IH, Hinv | ].
  destruct (path.is_dot c && path.at_sep r); [apply IH, Hinv | ].
  match goal with |- context [if ?b then _ else _] => destruct b end.
  - (* the element ".." *)
    destruct (Nat.ltb_spec dotdot (length out)) as [Hlt | Hge].
    + apply IH, backtrack_inv; assumption.
    + destruct rooted; cbn [negb]; [apply IH, Hinv | ].
      apply IH.
      destruct Hinv as (Hadj & rest & pre & -> & Hlen & Hpre & Hrest).
      assert (rest = []) as ->.
      { destruct rest; [reflexivity | ]. rewrite length_app in Hge.
        simpl in Hge. lia. }
      cbn [app] in *.
      set (out1 := if (0 <? length pre)%nat then "/"%char :: pre else pre).
      assert (Hout1 : no_adjacent_slashes out1 = true
                      /\ head_not_slash ("."%char :: out1)).
      { split; [ | reflexivity]. subst out1.
        destruct (0 <? length pre)%nat; [ | exact Hadj].
        apply nadj_cons. auto. }
      split.
      * apply nadj_cons. split; [discriminate | ].
        apply nadj_cons. split; [discriminate | tauto].
      * exists [], ("."%char :: "."%char :: out1). repeat split; auto.
  - (* a real element *)
    destruct (path.split_elem (String c r)) as [e rest'] eqn:He.
    apply IH.
    pose proof (split_elem_noslash _ _ _ He) as Hno.
    destruct (split_elem_nonempty _ _ _ _ Hslash He) as [e' ->].
    destruct Hinv as (Hadj & rest & pre & -> & Hlen & Hpre & Hrest).
    match goal with |- context [if ?b then _ else _] =>
      set (need := b); set (out1 := if need then _ else _) end.
    assert (Hout1 : no_adjacent_slashes out1 = true
                    /\ exists rest1, out1 = (rest1 ++ pre)%list).
    { subst out1. destruct need eqn:Hneed.
      - split; [ | exists ("/"%char :: rest); reflexivity].
        apply nadj_cons. split; [intros _ | exact Hadj].
        destruct rest as [ | a rest]; [ | exact Hrest]. cbn [app] in *.
        subst need. destruct rooted.
        + subst pre. discriminate.
        + destruct pre; [discriminate | exact Hpre].
      - split; [exact Hadj | exists rest; reflexivity]. }
    destruct Hout1 as [Hadj1 [rest1 Hrest1]].
    split; [apply nadj_app_noslash; [apply Forall_rev, Hno | exact Hadj1] | ].
    exists (rev (c :: e') ++ rest1)%list, pre.
    split; [rewrite Hrest1, app_assoc; reflexivity | ].
    split; [exact Hlen | ]. split; [exact Hpre | ].
    apply head_not_slash_rev_noslash; [discriminate | exact Hno].
Qed.

(** A cleaned path has no empty element, and ends in a slash only when it
    is the root. *)
Lemma Clean_shape (p : string) :
  no_double_slash (path.Clean p) = true
  /\ (ends_with_slash (path.Clean p) = true -> path.Clean p = "/").
Proof.
  unfold path.Clean. destruct p as [ | c r]; [split; [reflexivity | discriminate] | ].
  set (rooted := path.is_slash c).
  assert (Hinv : exists dotdot,
            clean_inv rooted
              (if rooted
               then path.clean_loop (String.length (String c r)) true r
                      ["/"%char] 1
               else path.clean_loop (String.length (String c r)) false
                      (String c r) [] 0) dotdot).
  { destruct rooted.
    - apply clean_loop_inv. split; [reflexivity | ].
      exists [], ["/"%char]. repeat split; auto.
    - apply clean_loop_inv. split; [reflexivity | ].
      exists [], []. repeat split; auto. }
  destruct Hinv as [dotdot Hinv].
  match goal with |- context [match ?o with [] => _ | _ :: _ => _ end] =>
    destruct o as [ | a l] eqn:Hout end;
    [split; [reflexivity | discriminate] | ].
  destruct Hinv as (Hadj & rest & pre & Heq & Hlen & Hpre & Hrest).
  unfold no_double_slash, ends_with_slash.
  rewrite list_ascii_of_string_of_list_ascii.
  split; [apply nadj_rev, Hadj | ].
  cbn [rev]. rewrite last_snoc. intros Ha.
  destruct rest as [ | b rest].
  - cbn [app] in Heq. subst pre. destruct rooted.
    + injection Hpre as -> ->. reflexivity.
    + simpl in Hpre. congruence.
  - injection Heq as <- _. simpl in Hrest. congruence.
Qed.

End clean_shape.

(** X20. The object path of a file never has an empty element, two
    slashes in a row, and it ends in a slash only when it is the root
    path "/". *)
Theorem objectPath_shape (object : storage.File.t) :
  no_double_slash (objectPath object) = true
  /\ (ends_with_slash (objectPath object) = true -> objectPath object = "/").
Proof.
  unfold objectPath, path.Join.
  match goal with |- context [if ?b then _ else _] => destruct b end.
  - split; [reflexivity | discriminate].
  - apply Clean_shape.
Qed.

(** A prefix that ends in slashes and a key that starts with one. *)
Example objectPath_shape_examples :
  objectPath (new_file "a//" "/k/" "txt" 0) = "a/k/.txt"
  /\ objectPath (new_file "/" "" "" 0) = "/"
  /\ objectPath (new_file "a/b/" "" "" 0) = "a/b".
Proof. repeat split; vm_compute; reflexivity. Qed.
